(** * plaseek: the pipeline driver and its table filters

    A shallow embedding of [plaseek/plaseek.py].  The Python functions
    [check_binaries_available], [filtering_m8file], [remove_duplicates],
    [filtering_by_pident] and [main] are written as computations in a
    state-and-exception monad over a world made of the file system, the heap
    of pandas tables and the trace of input/output events.

    What the program delegates (the pandas tokenizer, the sorting routine
    behind [sort_values], the formatting of floats, the FASTA writer, the
    three external tools, [shutil.which] and [os.getenv]) is gathered in the
    class [Externals]. *)

From Stdlib Require Import ZArith List Ascii String Floats Lia.
From stdpp Require Import base option list gmap strings pretty.

Local Open Scope string_scope.
Local Open Scope list_scope.

(** ** Python values *)

(** A cell of a pandas table as [read_csv] produces it: an [int64], a
    [float64] (a missing field is the float [nan]) or a Python [str]. *)
Inductive cell : Type :=
  | CInt (z : Z)
  | CFloat (f : float)
  | CStr (s : string).

(** A value held by an attribute of the [argparse] namespace. *)
Inductive argval : Type :=
  | VNone
  | VStr (s : string)
  | VInt (z : Z)
  | VFloat (f : float).

(** The exceptions the program and its libraries raise. *)
Inductive exn : Type :=
  | FileNotFoundError (msg : string)
  | ValueError (msg : string)
  | TypeError (msg : string)
  | KeyError (key : string)
  | AttributeError (attr : string)
  | SystemExit (code : Z)
  | ParserError (msg : string)
  | ExternalError (msg : string).

(** A pandas [DataFrame], row-major: the column labels and, for every row, its
    index label and its cells. *)
Record DataFrame : Type := mkDataFrame {
  columns : list string;
  rows : list (nat * list cell)
}.

(** A Biopython [SeqRecord]. *)
Record SeqRecord : Type := mkSeqRecord {
  id : string;
  name : string;
  seq : string;
  description : string
}.

(** What the driver does to the outside: reading a table, opening a file for
    writing, and calling one of the wrappers of [plaseek.tools]. *)
Inductive Event : Type :=
  | EvRead (path : string)
  | EvWrite (path : string)
  | EvFoldseek (pdbfile : string) (foldseek_binary_path foldseek_db_path : argval)
      (outtsvfile : string) (jobs : argval)
  | EvTblastn (db : argval) (input_fasta outfile : string) (block : argval)
      (tblastn_binary_path parallel_binary_path : argval) (evalue : argval)
  | EvBlastdbcmd (blastdbcmd_binary_path parallel_binary_path outfile db : argval)
      (df : DataFrame) (jobs : argval).

(** ** The world and the monad *)

Record World : Type := mkWorld {
  fs : gmap string string;
  heap : list DataFrame;
  trace : list Event
}.

Definition M (A : Type) : Type := World -> (exn + A) * World.

Definition ret {A} (a : A) : M A := fun w => (inr a, w).

Definition raise {A} (e : exn) : M A := fun w => (inl e, w).

Definition bind {A B} (m : M A) (k : A -> M B) : M B :=
  fun w =>
    match m w with
    | (inl e, w') => (inl e, w')
    | (inr a, w') => k a w'
    end.

Definition lift {A} (r : exn + A) : M A := fun w => (r, w).

(** Binding in the pure exception monad [exn + _]. *)
Definition rbind {A B} (r : exn + A) (k : A -> exn + B) : exn + B :=
  match r with
  | inl e => inl e
  | inr a => k a
  end.

Declare Scope py_scope.
Delimit Scope py_scope with py.
Notation "'do' x <- c ; k" := (bind c (fun x => k))
  (at level 10, x name, c at level 100, k at level 200) : py_scope.
Notation "'do_' c ; k" := (bind c (fun _ => k))
  (at level 10, c at level 100, k at level 200) : py_scope.
Notation "'try' x <- c ; k" := (rbind c (fun x => k))
  (at level 10, x name, c at level 100, k at level 200) : py_scope.
Local Open Scope py_scope.

(** [log ev] appends an event to the trace. *)
Definition log (ev : Event) : M unit :=
  fun w => (inr tt, mkWorld (fs w) (heap w) (trace w ++ [ev])).

(** A new table is a new object: it goes to the end of the heap and its
    position is its reference. *)
Definition alloc (df : DataFrame) : M nat :=
  fun w => (inr (length (heap w)), mkWorld (fs w) (heap w ++ [df]) (trace w)).

Definition deref (l : nat) : M DataFrame :=
  fun w =>
    match heap w !! l with
    | Some df => (inr df, w)
    | None => (inl (ValueError "dangling table reference"), w)
    end.

Definition write_file (path content : string) : M unit :=
  fun w => (inr tt, mkWorld (<[path := content]> (fs w)) (heap w) (trace w)).

(** ** pathlib *)

(** [Path(v)]: only a [str] makes a path.  A path is kept as the text it was
    made from. *)
Definition Path (v : argval) : exn + string :=
  match v with
  | VStr s => inr s
  | _ => inl (TypeError "expected str, bytes or os.PathLike object")
  end.

(** [Path.exists]: the file system holds an entry under that path. *)
Definition exists_ (p : string) : M bool :=
  fun w => (inr (bool_decide (is_Some (fs w !! p))), w).

(** [s.split(sep)] for a one-character separator. *)
Fixpoint split (sep : ascii) (s : string) : list string :=
  match s with
  | EmptyString => [EmptyString]
  | String c s' =>
      if Ascii.eqb c sep then EmptyString :: split sep s'
      else match split sep s' with
           | [] => [String c EmptyString]
           | h :: t => String c h :: t
           end
  end.

(** The components of a path: pathlib drops empty and ["."] components. *)
Definition path_parts (p : string) : list string :=
  List.filter (fun c => negb (String.eqb c "") && negb (String.eqb c "."))
    (split "/" p).

(** [Path.name]: the last component, or the empty string. *)
Definition path_name (p : string) : string := List.last (path_parts p) "".

(** [s.rfind(c)]: the position of the last [c] in [s]. *)
Fixpoint rfind (c : ascii) (s : string) : option nat :=
  match s with
  | EmptyString => None
  | String a s' =>
      match rfind c s' with
      | Some i => Some (S i)
      | None => if Ascii.eqb a c then Some 0 else None
      end
  end.

(** [Path.suffix]: from the last dot of the name on, when that dot is neither
    the first nor the last character of the name. *)
Definition path_suffix (p : string) : string :=
  let name := path_name p in
  match rfind "." name with
  | Some i =>
      if ((0 <? i) && (i <? String.length name - 1))%nat
      then substring i (String.length name - i) name
      else ""
  | None => ""
  end.

(** [Path.stem]: the name without its suffix. *)
Definition path_stem (p : string) : string :=
  let name := path_name p in
  match rfind "." name with
  | Some i =>
      if ((0 <? i) && (i <? String.length name - 1))%nat
      then substring 0 i name
      else name
  | None => name
  end.

(** ** check_binaries_available *)

Definition check_binaries_available
    (parallel_binary_path tblastn_binary_path foldseek_binary_path : argval) : M unit :=
  do p <- lift (Path parallel_binary_path);
  do ok <- exists_ p;
  if negb ok then raise (FileNotFoundError "foldseek not found. Please set PATH to foldseek.")
  else
  do p <- lift (Path tblastn_binary_path);
  do ok <- exists_ p;
  if negb ok then raise (FileNotFoundError "tblastn not found. Please set PATH to tblastn.")
  else
  do p <- lift (Path foldseek_binary_path);
  do ok <- exists_ p;
  if negb ok then raise (FileNotFoundError "parallel not found. Please set PATH to parallel.")
  else ret tt.

(** ** What the program delegates *)

Class Externals : Type := {
  (** the pandas tokenizer and type inference for [read_csv(names=...)]: the
      data rows of a file text *)
  parse_names : list string -> string -> exn + list (list cell);
  (** the same for [read_csv(header=0)]: the header labels and the data rows *)
  parse_header : string -> exn + (list string * list (list cell));
  (** the sorting routine [sort_values] runs by default ([kind="quicksort"])
      on the keys that are not missing: the positions in sorted order *)
  argsort : list cell -> list nat;
  (** [str] of a Python float *)
  float_str : float -> string;
  (** the text [SeqIO.write(records, fh, "fasta")] writes *)
  fasta_format : list SeqRecord -> string;
  (** a wrapper of [plaseek.tools] run on the file system: the exception it
      raises, if any, and the file system it leaves *)
  external : Event -> gmap string string -> option exn * gmap string string;
  (** [shutil.which] and [os.getenv] *)
  which : string -> option string;
  getenv : string -> option string
}.

(** ** pandas *)

Definition nan_cell : cell := CFloat nan.

(** An [int64] seen as a [float64], rounded to nearest. *)
Definition float_of_Z (z : Z) : float :=
  SF2Prim (SpecFloat.binary_normalize 53 1024 z 0 false).

Definition cell_float (c : cell) : option float :=
  match c with
  | CInt z => Some (float_of_Z z)
  | CFloat f => Some f
  | CStr _ => None
  end.

(** [pd.isna] on a cell. *)
Definition isna (c : cell) : bool :=
  match c with
  | CFloat f => PrimFloat.is_nan f
  | _ => false
  end.

(** The position of a label among the column labels. *)
Fixpoint column_index (label : string) (cols : list string) : option nat :=
  match cols with
  | [] => None
  | c :: cs =>
      if String.eqb c label then Some 0
      else option_map S (column_index label cs)
  end.

(** The cell of a row at a position; a field the row lacks is missing. *)
Definition cell_at (j : nat) (row : list cell) : cell := List.nth j row nan_cell.

(** [row[label]] for a row of a table with the given columns. *)
Definition row_getitem (cols : list string) (row : list cell) (label : string) : exn + cell :=
  match column_index label cols with
  | Some j => inr (cell_at j row)
  | None => inl (KeyError label)
  end.

(** [df[label]]: a column as a series. *)
Definition getitem (df : DataFrame) (label : string) : exn + list cell :=
  match column_index label (columns df) with
  | Some j => inr (List.map (fun r => cell_at j (snd r)) (rows df))
  | None => inl (KeyError label)
  end.

(** A comparison of a cell with a float; a [str] cannot be compared. *)
Definition cell_cmp (op : float -> float -> bool) (c : cell) (t : float) : exn + bool :=
  match cell_float c with
  | Some f => inr (op f t)
  | None => inl (TypeError "'<' not supported between instances of 'str' and 'float'")
  end.

(** [series OP t], element by element. *)
Fixpoint series_cmp (op : float -> float -> bool) (s : list cell) (t : float)
    : exn + list bool :=
  match s with
  | [] => inr []
  | c :: s' =>
      try b <- cell_cmp op c t;
      try bs <- series_cmp op s' t;
      inr (b :: bs)
  end.

(** [series < t] and [series >= t]. *)
Definition series_lt : list cell -> float -> exn + list bool := series_cmp PrimFloat.ltb.
Definition series_ge : list cell -> float -> exn + list bool :=
  series_cmp (fun f t => PrimFloat.leb t f).

(** The rows a boolean mask keeps. *)
Fixpoint select {A} (mask : list bool) (l : list A) : list A :=
  match mask, l with
  | b :: mask', x :: l' => if b then x :: select mask' l' else select mask' l'
  | _, _ => []
  end.

(** [df[mask]]: a new table of the rows the mask keeps, under their labels. *)
Definition getitem_mask (df : DataFrame) (mask : list bool) : DataFrame :=
  mkDataFrame (columns df) (select mask (rows df)).

(** [df.take(indexer)]: a new table of the rows at the given positions. *)
Definition take (df : DataFrame) (indexer : list nat) : DataFrame :=
  mkDataFrame (columns df) (omap (fun i => rows df !! i) indexer).

(** The default [RangeIndex] of a table just read. *)
Definition range_index (body : list (list cell)) : list (nat * list cell) :=
  imap (fun i row => (i, row)) body.

(** A column can be sorted when its present keys are all integers, all floats
    or all strings; Python does not order a [str] against a number. *)
Definition is_int (c : cell) : bool := match c with CInt _ => true | _ => false end.
Definition is_float (c : cell) : bool := match c with CFloat _ => true | _ => false end.
Definition is_str (c : cell) : bool := match c with CStr _ => true | _ => false end.

Definition sortable (keys : list cell) : bool :=
  forallb is_int keys || forallb is_float keys || forallb is_str keys.

(** [nargsort(items, kind="quicksort", ascending=True, na_position="last")]:
    the missing keys are set aside, the others are handed to the sorting
    routine, and the positions of the missing ones come last. *)
Definition nargsort `{Externals} (items : list cell) : exn + list nat :=
  let idx := List.seq 0 (length items) in
  let non_nan_idx := List.filter (fun i => negb (isna (cell_at i items))) idx in
  let nan_idx := List.filter (fun i => isna (cell_at i items)) idx in
  let non_nans := List.map (fun i => cell_at i items) non_nan_idx in
  if sortable non_nans
  then inr (List.map (fun i => List.nth i non_nan_idx 0) (argsort non_nans) ++ nan_idx)
  else inl (TypeError "'<' not supported between instances of 'str' and 'int'").

(** [df.sort_values(by=[label])]: a new table. *)
Definition sort_values `{Externals} (df : DataFrame) (label : string) : exn + DataFrame :=
  try k <- getitem df label;
  try indexer <- nargsort k;
  inr (take df indexer).

(** [open(path).read()], as [read_csv] does before parsing. *)
Definition read_file (path : string) : M string :=
  fun w =>
    match fs w !! path with
    | Some text => (inr text, w)
    | None => (inl (FileNotFoundError path), w)
    end.

(** [pd.read_csv(file, sep="\t", names=names)] *)
Definition read_csv_names `{Externals} (file : string) (names : list string) : M nat :=
  do_ log (EvRead file);
  do text <- read_file file;
  do body <- lift (parse_names names text);
  alloc (mkDataFrame names (range_index body)).

(** [pd.read_csv(file, sep="\t", header=0)] *)
Definition read_csv_header `{Externals} (file : string) : M nat :=
  do_ log (EvRead file);
  do text <- read_file file;
  do table <- lift (parse_header text);
  alloc (mkDataFrame (fst table) (range_index (snd table))).

(** ** filtering_m8file *)

Definition m8_names : list string :=
  ["query"; "theader"; "pident"; "alnlen"; "mismatch"; "gapopen"; "qstart";
   "qend"; "tstart"; "tend"; "prob"; "evalue"; "bits"; "qlen"; "tlen"; "qaln";
   "taln"; "tca"; "tseq"; "taxid"; "taxname"].

(** The default threshold, [1e-10] as a binary64. *)
Definition default_eval_threshold : float := 0x1.b7cdfd9d7bdbbp-34%float.

Definition filtering_m8file `{Externals} (file : string) (eval_threshold : float) : M nat :=
  do df <- read_csv_names file m8_names;
  do d <- deref df;
  do evalue <- lift (getitem d "evalue");
  do mask <- lift (series_lt evalue eval_threshold);
  alloc (getitem_mask d mask).

(** ** remove_duplicates *)

Definition is_ascii (s : string) : bool :=
  forallb (fun c => (N_of_ascii c <? 128)%N) (list_ascii_of_string s).

(** [Seq(data)]: only a [str] is taken, and it is encoded as ASCII. *)
Definition Seq (data : cell) : exn + string :=
  match data with
  | CStr s =>
      if is_ascii s then inr s
      else inl (ValueError "'ascii' codec can't encode character")
  | _ => inl (TypeError "data should be a string, bytes, bytearray, Seq, or MutableSeq object")
  end.

(** [str(x)] for a cell, as an f-string formats it. *)
Definition cell_str `{Externals} (c : cell) : string :=
  match c with
  | CInt z => pretty z
  | CFloat f => float_str f
  | CStr s => s
  end.

(** [SeqRecord(id=..., name=..., seq=..., description=...)]: the identifier
    and the name have to be strings. *)
Definition SeqRecord_init (id_ name_ : cell) (seq_ description_ : string) : exn + SeqRecord :=
  match id_, name_ with
  | CStr i, CStr n => inr (mkSeqRecord i n seq_ description_)
  | CStr _, _ => inl (TypeError "name argument should be a string")
  | _, _ => inl (TypeError "id argument should be a string")
  end.

(** The record built from one row: the arguments are evaluated from left to
    right, then the constructor runs. *)
Definition hit_record `{Externals} (cols : list string) (row : list cell) : exn + SeqRecord :=
  try id_ <- row_getitem cols row "theader";
  try name_ <- row_getitem cols row "theader";
  try tseq <- row_getitem cols row "tseq";
  try seq_ <- Seq tseq;
  try pident <- row_getitem cols row "pident";
  try evalue <- row_getitem cols row "evalue";
  try taxid <- row_getitem cols row "taxid";
  try taxname <- row_getitem cols row "taxname";
  SeqRecord_init id_ name_ seq_
    ("pident=" +:+ cell_str pident +:+ ", evalue=" +:+ cell_str evalue
     +:+ " taxid=" +:+ cell_str taxid +:+ ", taxname=" +:+ cell_str taxname +:+ ", ").

(** [x in seen] and [seen.add(x)]: the set only ever receives strings, since a
    sequence that is not one is refused by [Seq] before it is added. *)
Definition in_seen (x : cell) (seen : gset string) : bool :=
  match x with
  | CStr s => bool_decide (s ∈ seen)
  | _ => false
  end.

Definition seen_add (x : cell) (seen : gset string) : gset string :=
  match x with
  | CStr s => {[ s ]} ∪ seen
  | _ => seen
  end.

(** The loop over [hits.iterrows()], with its two variables. *)
Fixpoint remove_duplicates_loop `{Externals} (cols : list string)
    (its : list (nat * list cell)) (seen : gset string) (nodups : list SeqRecord)
    : exn + list SeqRecord :=
  match its with
  | [] => inr nodups
  | (_, row) :: its' =>
      try tseq <- row_getitem cols row "tseq";
      if negb (in_seen tseq seen) then
        try record <- hit_record cols row;
        remove_duplicates_loop cols its' (seen_add tseq seen) (nodups ++ [record])
      else remove_duplicates_loop cols its' seen nodups
  end.

Definition remove_duplicates `{Externals} (hits : nat) : M (list SeqRecord) :=
  do d <- deref hits;
  lift (remove_duplicates_loop (columns d) (rows d) ∅ []).

(** ** filtering_by_pident *)

Definition default_pident_threshold : float := 98%float.

Definition filtering_by_pident `{Externals} (infile : string) (pident_threshold : float)
    (sort_values_ : string) : M nat :=
  do df <- read_csv_header infile;
  do d <- deref df;
  do pident <- lift (getitem d "pident");
  do mask <- lift (series_ge pident pident_threshold);
  do df_filtered <- alloc (getitem_mask d mask);
  do d' <- deref df_filtered;
  do df_filtered_sorted <- lift (sort_values d' sort_values_);
  alloc df_filtered_sorted.

(** ** argparse *)

Inductive argtype : Type := TStr | TInt | TFloat.

Record Argument : Type := mkArgument {
  flags : list string;
  dest : string;
  type_ : argtype;
  default_ : argval
}.

Definition of_option (o : option string) : argval :=
  match o with
  | Some s => VStr s
  | None => VNone
  end.

(** The options [main] declares, in the order of the [add_argument] calls.
    [--version] and [--help] store nothing and are handled by [parse_args]. *)
Definition declared_arguments `{Externals} : list Argument :=
  [ mkArgument ["--parallel-binary-path"] "parallel_binary_path" TStr (of_option (which "parallel"));
    mkArgument ["--tblastn-binary-path"] "tblastn_binary_path" TStr (of_option (which "tblastn"));
    mkArgument ["--foldseek-binary-path"] "foldseek_binary_path" TStr (of_option (which "foldseek"));
    mkArgument ["-i"; "--input"] "input" TStr VNone;
    mkArgument ["--foldseek-db-path"] "foldseek_db_path" TStr (of_option (getenv "FOLDSEEKDB"));
    mkArgument ["--target-sequence-db-path"] "target_sequence_db_path" TStr VNone;
    mkArgument ["--evalue"] "evalue" TFloat (VFloat 0x1.bff2ee48e053p-333%float);
    mkArgument ["--block"] "block" TInt (VInt 3000);
    mkArgument ["-j"; "--jobs"] "jobs" TInt (VInt 4);
    mkArgument ["-o"; "--outfile-path"] "outfile_path" TStr VNone ].

Definition accepts (t : argtype) (v : argval) : bool :=
  match t, v with
  | TStr, VStr _ | TInt, VInt _ | TFloat, VFloat _ => true
  | _, _ => false
  end.

Definition has_flag (flag : string) (a : Argument) : bool :=
  existsb (String.eqb flag) (flags a).

(** The namespace before the command line is read: every declared
    destination with its default. *)
Definition default_namespace `{Externals} : gmap string argval :=
  list_to_map (List.map (fun a => (dest a, default_ a)) declared_arguments).

(** The command line is a list of option strings, each with its value already
    converted.  An undeclared option or a value of the wrong type ends the
    program with status 2; [--version] and [--help] print and end it. *)
Fixpoint parse_known `{Externals} (argv : list (string * argval)) (ns : gmap string argval)
    : exn + gmap string argval :=
  match argv with
  | [] => inr ns
  | (flag, v) :: argv' =>
      if existsb (String.eqb flag) ["-h"; "--help"; "-v"; "--version"]
      then inl (SystemExit 0)
      else match List.find (has_flag flag) declared_arguments with
           | Some a =>
               if accepts (type_ a) v then parse_known argv' (<[dest a := v]> ns)
               else inl (SystemExit 2)
           | None => inl (SystemExit 2)
           end
  end.

Definition parse_args `{Externals} (argv : list (string * argval)) : exn + gmap string argval :=
  parse_known argv default_namespace.

(** [args.attr] *)
Definition getattr (args : gmap string argval) (attr : string) : exn + argval :=
  match args !! attr with
  | Some v => inr v
  | None => inl (AttributeError attr)
  end.

(** ** main *)

(** A call of a wrapper of [plaseek.tools]: it is recorded, then it runs on
    the file system. *)
Definition invoke `{Externals} (ev : Event) : M unit :=
  fun w =>
    let r := external ev (fs w) in
    (match fst r with Some e => inl e | None => inr tt end,
     mkWorld (snd r) (heap w) (trace w ++ [ev])).

(** [open(path, "w")]: the file is created or emptied. *)
Definition open_w (path : string) : M unit :=
  do_ log (EvWrite path);
  write_file path "".

(** Lines 193-206: the entry point, chosen from the suffix of the input. *)
Definition structural_search `{Externals} (args : gmap string argval) (input : string) : M string :=
  if String.eqb (path_suffix input) ".pdb" then
    let foldseek_m8file := path_stem input +:+ ".m8" in
    do foldseek_binary_path <- lift (getattr args "foldseek_binary_path");
    do foldseek_db_path <- lift (getattr args "foldseek_db_path");
    do jobs <- lift (getattr args "jobs");
    do_ invoke (EvFoldseek input foldseek_binary_path foldseek_db_path foldseek_m8file jobs);
    ret foldseek_m8file
  else if String.eqb (path_suffix input) ".m8" then ret input
  else raise (ValueError "Invalid input file suffix: the suffix must be .pdb or .m8.").

(** Lines 208-228: from the table of structural hits to the filtered table of
    translated hits.  The measure of the time [run_tblastn] takes and its
    printing are left out: they do not enter the control flow. *)
Definition translated_search `{Externals} (args : gmap string argval)
    (input foldseek_m8file : string) : M nat :=
  do filtered_foldseekhits <- filtering_m8file foldseek_m8file default_eval_threshold;
  let nodup_fasta := path_stem input +:+ "_nodup.fasta" in
  do_ open_w nodup_fasta;
  do records <- remove_duplicates filtered_foldseekhits;
  do_ write_file nodup_fasta (fasta_format records);
  let tblastn_result := path_stem input +:+ "_tblastn.tsv" in
  do db <- lift (getattr args "target_sequence_db_path");
  do block <- lift (getattr args "block");
  do tblastn_binary_path <- lift (getattr args "tblastn_binary_path");
  do parallel_binary_path <- lift (getattr args "parallel_binary_path");
  do evalue <- lift (getattr args "evalue");
  do_ invoke (EvTblastn db nodup_fasta tblastn_result block tblastn_binary_path
                parallel_binary_path evalue);
  filtering_by_pident tblastn_result default_pident_threshold "saccver".

(** Lines 187-228: everything up to the filtered table of translated hits. *)
Definition search_stages `{Externals} (argv : list (string * argval))
    : M (gmap string argval * nat) :=
  do args <- lift (parse_args argv);
  do parallel_binary_path <- lift (getattr args "parallel_binary_path");
  do tblastn_binary_path <- lift (getattr args "tblastn_binary_path");
  do foldseek_binary_path <- lift (getattr args "foldseek_binary_path");
  do_ check_binaries_available parallel_binary_path tblastn_binary_path foldseek_binary_path;
  do input_ <- lift (getattr args "input");
  do input <- lift (Path input_);
  do foldseek_m8file <- structural_search args input;
  do filtered_tblastn <- translated_search args input foldseek_m8file;
  ret (args, filtered_tblastn).

(** Lines 230-237: the call of [run_blastdbcmd], its arguments evaluated from
    left to right. *)
Definition extract_final_records `{Externals} (args : gmap string argval)
    (filtered_tblastn : nat) : M unit :=
  do blastdbcmd_binary_path <- lift (getattr args "blastdbcmd_binary_path");
  do parallel_binary_path <- lift (getattr args "parallel_binary_path");
  do outfile <- lift (getattr args "outfile_path");
  do db <- lift (getattr args "target_sequence_db_path");
  do df <- deref filtered_tblastn;
  do jobs <- lift (getattr args "jobs");
  invoke (EvBlastdbcmd blastdbcmd_binary_path parallel_binary_path outfile db df jobs).

Definition main `{Externals} (argv : list (string * argval)) : M unit :=
  do s <- search_stages argv;
  extract_final_records (fst s) (snd s).

(** * Specification-side definitions *)

(** The mask of a comparison is the comparison of every cell. *)
Definition cmp_holds (op : float -> float -> bool) (t : float) (c : cell) : bool :=
  match cell_float c with
  | Some f => op f t
  | None => false
  end.


(** The cell of a row under a column label. *)
Definition field (cols : list string) (label : string) (row : list cell) : cell :=
  match column_index label cols with
  | Some j => cell_at j row
  | None => nan_cell
  end.

(** Every cell of a series is a number. *)
Definition numeric (s : list cell) : bool :=
  forallb (fun c => bool_decide (is_Some (cell_float c))) s.

(** The e-value of a row of a structural-hit table is below the threshold. *)
Definition evalue_below (t : float) (r : nat * list cell) : bool :=
  cmp_holds PrimFloat.ltb t (field m8_names "evalue" (snd r)).

(** The cells of a table, without the index labels. *)
Definition cells (df : DataFrame) : list (list cell) := List.map snd (rows df).

(** The order of the keys of one sortable column. *)
Definition key_le (a b : cell) : bool :=
  match a, b with
  | CInt x, CInt y => (x <=? y)%Z
  | CFloat x, CFloat y => PrimFloat.leb x y
  | CStr x, CStr y => String.leb x y
  | _, _ => false
  end.

(** The same order with the missing keys last. *)
Definition na_last_le (a b : cell) : bool :=
  isna b || (negb (isna a) && key_le a b).

(** A list is ascending for a boolean order. *)
Fixpoint ascending {A} (le : A -> A -> bool) (l : list A) : bool :=
  match l with
  | [] => true
  | x :: l' => forallb (le x) l' && ascending le l'
  end.

(** What a sorting routine owes on a list of keys: its answer lists every
    position once and reads the keys in ascending order. *)
Definition sorts (keys : list cell) (indexer : list nat) : bool :=
  bool_decide (length indexer = length keys)
  && forallb (fun i => existsb (Nat.eqb i) indexer) (List.seq 0 (length keys))
  && ascending key_le (List.map (fun i => cell_at i keys) indexer).

(** A computation leaves the files and the tables it finds as they are: it
    may only add tables to the heap. *)
Definition read_only {A} (m : M A) : Prop :=
  forall w, fs (snd (m w)) = fs w /\ heap w `prefix_of` heap (snd (m w)).

(** The table a computation returns did not exist before it ran. *)
Definition returns_new (m : M nat) : Prop :=
  forall w l w', m w = (inr l, w') -> length (heap w) <= l.

(** The text of a cell that holds a string. *)
Definition str_of (c : cell) : string :=
  match c with
  | CStr s => s
  | _ => ""
  end.

Definition is_ascii_str (c : cell) : bool :=
  match c with
  | CStr s => is_ascii s
  | _ => false
  end.

(** A table of structural hits as [remove_duplicates] expects it: the six
    columns it reads are there, every header is a string and every target
    sequence is an ASCII string. *)
Definition structural_hits (df : DataFrame) : bool :=
  forallb (fun label => bool_decide (is_Some (column_index label (columns df))))
    ["theader"; "tseq"; "pident"; "evalue"; "taxid"; "taxname"]
  && forallb (fun r => is_str (field (columns df) "theader" (snd r))
                       && is_ascii_str (field (columns df) "tseq" (snd r)))
       (rows df).

(** The target sequence of a row. *)
Definition tseq_of (cols : list string) (r : nat * list cell) : string :=
  str_of (field cols "tseq" (snd r)).

(** The record that carries the header, the sequence and the metadata of a
    row. *)
Definition record_of `{Externals} (cols : list string) (row : list cell) : SeqRecord :=
  mkSeqRecord
    (str_of (field cols "theader" row))
    (str_of (field cols "theader" row))
    (str_of (field cols "tseq" row))
    ("pident=" +:+ cell_str (field cols "pident" row)
     +:+ ", evalue=" +:+ cell_str (field cols "evalue" row)
     +:+ " taxid=" +:+ cell_str (field cols "taxid" row)
     +:+ ", taxname=" +:+ cell_str (field cols "taxname" row) +:+ ", ").

(** For each key, whether it is met for the first time, given the keys met
    before. *)
Fixpoint first_flags (keys : list string) (seen : gset string) : list bool :=
  match keys with
  | [] => []
  | k :: keys' =>
      if bool_decide (k ∈ seen) then false :: first_flags keys' seen
      else true :: first_flags keys' ({[ k ]} ∪ seen)
  end.

(** The identity of a row of a table with the given columns is at least the
    threshold. *)
Definition pident_at_least (cols : list string) (p : float) (r : nat * list cell) : bool :=
  cmp_holds (fun f t => PrimFloat.leb t f) p (field cols "pident" (snd r)).

(** The keys of the rows of a table under a column label. *)
Definition keys_of (cols : list string) (label : string) (rs : list (nat * list cell))
    : list cell :=
  List.map (fun r => field cols label (snd r)) rs.

(** The keys that are present. *)
Definition dropna (keys : list cell) : list cell :=
  List.filter (fun c => negb (isna c)) keys.

(** Two keys are tied when each is at most the other. *)
Definition tied (a b : cell) : bool := na_last_le a b && na_last_le b a.

(** Rows with tied keys stand in the order of their labels, which for a table
    just read is the order of the input. *)
Definition keeps_ties_in_order (cols : list string) (label : string)
    (rs : list (nat * list cell)) : Prop :=
  forall i j ri rj,
    i < j -> rs !! i = Some ri -> rs !! j = Some rj ->
    tied (field cols label (snd ri)) (field cols label (snd rj)) = true ->
    fst ri < fst rj.

(** The value of an attribute of the namespace, [None] when it has none. *)
Definition attr (args : gmap string argval) (a : string) : argval :=
  default VNone (args !! a).

(** The destinations of the declared options. *)
Definition declared_dests : list string :=
  ["parallel_binary_path"; "tblastn_binary_path"; "foldseek_binary_path"; "input";
   "foldseek_db_path"; "target_sequence_db_path"; "evalue"; "block"; "jobs"; "outfile_path"].

(** A computation emits events: on every world it adds to the trace a list of
    events that starts with [must] and is a beginning of [plan], all of
    [plan] when it returns. *)
Definition emits {A} (m : M A) (must plan : list Event) : Prop :=
  forall w, exists evs,
    trace (snd (m w)) = trace w ++ evs /\
    must `prefix_of` evs /\
    evs `prefix_of` plan /\
    (forall a, fst (m w) = inr a -> evs = plan).

(** The call of the structural search for an input. *)
Definition foldseek_call (args : gmap string argval) (input : string) : Event :=
  EvFoldseek input (attr args "foldseek_binary_path") (attr args "foldseek_db_path")
    (path_stem input +:+ ".m8") (attr args "jobs").

(** What the driver does after the entry point, on the table [m8file]: the
    files are named after the stem of the input. *)
Definition later_stages (args : gmap string argval) (input m8file : string) : list Event :=
  [ EvRead m8file;
    EvWrite (path_stem input +:+ "_nodup.fasta");
    EvTblastn (attr args "target_sequence_db_path")
      (path_stem input +:+ "_nodup.fasta") (path_stem input +:+ "_tblastn.tsv")
      (attr args "block") (attr args "tblastn_binary_path")
      (attr args "parallel_binary_path") (attr args "evalue");
    EvRead (path_stem input +:+ "_tblastn.tsv") ].

(** * A sample run

    Concrete tools, tables and files, on which the statements below are
    exercised. *)

Module Sample.

(** A structural hit with the given header, identity, e-value, target
    sequence and taxonomy. *)
Definition hit (theader : string) (pident evalue : float) (tseq : string)
    (taxid : Z) (taxname : string) : list cell :=
  [CStr "query"; CStr theader; CFloat pident; CInt 120; CInt 3; CInt 0;
   CInt 1; CInt 120; CInt 5; CInt 124; CFloat 1; CFloat evalue; CInt 310;
   CInt 120; CInt 130; CStr "MKV"; CStr "MKV"; CStr "0.1,0.2,0.3";
   CStr tseq; CInt taxid; CStr taxname].

(** [1e-20], [1e-5] and [1e-30] as binary64 values. *)
Definition e20 : float := 0x1.79ca10c924223p-67%float.
Definition e5 : float := 0x1.4f8b588e368f1p-17%float.
Definition e30 : float := 0x1.4484bfeebc2ap-100%float.

Definition hits : list (list cell) :=
  [ hit "seq1" 98.5 e20 "ATGC" 562 "Escherichia coli";
    hit "seq2" 75 e5 "ATGC" 9606 "Homo sapiens";
    hit "seq3" 60 e30 "GGCC" 562 "Escherichia coli";
    hit "seq4" 55 e20 "ATGC" 1280 "Staphylococcus aureus" ].

(** A table of translated hits: two of the rows share their accession. *)
Definition tblastn_columns : list string := ["qaccver"; "saccver"; "pident"; "evalue"].

Definition tblastn_body : list (list cell) :=
  [ [CStr "seq1"; CStr "NZ_B"; CFloat 99.5; CFloat e30];
    [CStr "seq3"; CStr "NZ_B"; CFloat 100; CFloat e30];
    [CStr "seq1"; CStr "NZ_C"; CFloat 97; CFloat e30];
    [CStr "seq3"; CStr "NZ_A"; CFloat 98; CFloat e30] ].

Definition sample_parse_names (names : list string) (text : string) : exn + list (list cell) :=
  if String.eqb text "hits" then inr hits
  else if String.eqb text "" then inr []
  else inl (ParserError "Error tokenizing data").

(** Eighteen translated hits on one accession. *)
Definition tied_body : list (list cell) :=
  List.map (fun i => [CStr ("seq" +:+ pretty i); CStr "NZ_B"; CFloat 99; CFloat e30])
    (List.seq 0 18).

Definition sample_parse_header (text : string) : exn + (list string * list (list cell)) :=
  if String.eqb text "tblastn" then inr (tblastn_columns, tblastn_body)
  else if String.eqb text "tied" then inr (tblastn_columns, tied_body)
  else inl (ParserError "Error tokenizing data").

(** The sorting routine of the sample: a quicksort on the array of positions
    that takes the median of the first, middle and last keys as pivot and
    finishes the ranges of at most seventeen positions by insertion, the
    scheme of the [quicksort] kind [sort_values] uses by default. *)

(** The key at position [i] is less than the key at position [j]. *)
Definition less (keys : list cell) (i j : nat) : bool :=
  negb (key_le (cell_at j keys) (cell_at i keys)).

Definition at_ (tosort : list nat) (p : nat) : nat := List.nth p tosort 0.

Definition swap (p q : nat) (tosort : list nat) : list nat :=
  <[p := at_ tosort q]> (<[q := at_ tosort p]> tosort).

(** The inner loop of the insertion: the position [vi] goes down from [pj]
    as long as its key is less than the key below. *)
Fixpoint sift (keys : list cell) (pl vi pj : nat) (tosort : list nat) : list nat :=
  match pj with
  | 0 => <[0 := vi]> tosort
  | S pk =>
      if (pl <? pj)%nat && less keys vi (at_ tosort pk)
      then sift keys pl vi pk (<[pj := at_ tosort pk]> tosort)
      else <[pj := vi]> tosort
  end.

Definition insertion_range (keys : list cell) (pl pr : nat) (tosort : list nat) : list nat :=
  List.fold_left (fun a pi => sift keys pl (at_ a pi) pi a)
    (List.seq (pl + 1) (pr - pl)) tosort.

(** [do ++pi; while (less (v[*pi], vp))] and [do --pj; while (less (vp, v[*pj]))]. *)
Fixpoint scan_up (keys : list cell) (tosort : list nat) (vp pi fuel : nat) : nat :=
  match fuel with
  | 0 => S pi
  | S fuel' =>
      if less keys (at_ tosort (S pi)) vp then scan_up keys tosort vp (S pi) fuel'
      else S pi
  end.

Fixpoint scan_down (keys : list cell) (tosort : list nat) (vp pj fuel : nat) : nat :=
  match fuel with
  | 0 => pred pj
  | S fuel' =>
      if less keys vp (at_ tosort (pred pj)) then scan_down keys tosort vp (pred pj) fuel'
      else pred pj
  end.

(** The exchange loop of the partition; it ends when the scans meet. *)
Fixpoint exchange (keys : list cell) (vp pi pj fuel : nat) (tosort : list nat)
    : list nat * nat :=
  match fuel with
  | 0 => (tosort, pi)
  | S fuel' =>
      let pi' := scan_up keys tosort vp pi (length tosort) in
      let pj' := scan_down keys tosort vp pj (length tosort) in
      if (pj' <=? pi')%nat then (tosort, pi')
      else exchange keys vp pi' pj' fuel' (swap pi' pj' tosort)
  end.

(** The partition of the range [pl..pr] around the median of three; the
    answer is the array and the place of the pivot. *)
Definition partition_range (keys : list cell) (pl pr : nat) (tosort : list nat)
    : list nat * nat :=
  let pm := pl + (pr - pl) / 2 in
  let a1 := if less keys (at_ tosort pm) (at_ tosort pl) then swap pm pl tosort else tosort in
  let a2 := if less keys (at_ a1 pr) (at_ a1 pm) then swap pr pm a1 else a1 in
  let a3 := if less keys (at_ a2 pm) (at_ a2 pl) then swap pm pl a2 else a2 in
  let vp := at_ a3 pm in
  let a4 := swap pm (pr - 1) a3 in
  let r := exchange keys vp pl (pr - 1) (length tosort) a4 in
  (swap (snd r) (pr - 1) (fst r), snd r).

Fixpoint quicksort_range (keys : list cell) (fuel pl pr : nat) (tosort : list nat)
    : list nat :=
  match fuel with
  | 0 => insertion_range keys pl pr tosort
  | S fuel' =>
      if (16 <? pr - pl)%nat then
        let r := partition_range keys pl pr tosort in
        quicksort_range keys fuel' (snd r + 1) pr
          (quicksort_range keys fuel' pl (snd r - 1) (fst r))
      else insertion_range keys pl pr tosort
  end.

Definition quicksort_argsort (keys : list cell) : list nat :=
  quicksort_range keys (length keys) 0 (length keys - 1) (List.seq 0 (length keys)).

(** [str] on the floats of the sample; any other float is shown as [nan]. *)
Definition sample_float_str (f : float) : string :=
  if PrimFloat.eqb f e20 then "1e-20"
  else if PrimFloat.eqb f e5 then "1e-05"
  else if PrimFloat.eqb f e30 then "1e-30"
  else if PrimFloat.eqb f 98.5 then "98.5"
  else if PrimFloat.eqb f 75 then "75.0"
  else if PrimFloat.eqb f 60 then "60.0"
  else if PrimFloat.eqb f 55 then "55.0"
  else "nan".

Definition newline : string := String (ascii_of_nat 10) EmptyString.

Definition sample_fasta_format (records : list SeqRecord) : string :=
  List.fold_right
    (fun r text => ">" +:+ id r +:+ " " +:+ description r +:+ newline +:+ seq r
                   +:+ newline +:+ text)
    "" records.

(** The structural search writes a table of hits, the translated search a
    table of translated hits, the extraction nothing. *)
Definition sample_external (ev : Event) (files : gmap string string)
    : option exn * gmap string string :=
  match ev with
  | EvFoldseek _ _ _ outtsvfile _ => (None, <[outtsvfile := "hits"]> files)
  | EvTblastn _ _ outfile _ _ _ _ => (None, <[outfile := "tblastn"]> files)
  | _ => (None, files)
  end.

Definition sample_which (tool : string) : option string := Some ("/usr/bin/" +:+ tool).

Definition sample_getenv (var : string) : option string :=
  if String.eqb var "FOLDSEEKDB" then Some "/db/pdb" else None.

Definition tools : Externals :=
  {| parse_names := sample_parse_names;
     parse_header := sample_parse_header;
     argsort := quicksort_argsort;
     float_str := sample_float_str;
     fasta_format := sample_fasta_format;
     external := sample_external;
     which := sample_which;
     getenv := sample_getenv |}.

Definition files : gmap string string :=
  list_to_map
    [ ("/usr/bin/parallel", "#!"); ("/usr/bin/tblastn", "#!"); ("/usr/bin/foldseek", "#!");
      ("sample.pdb", "ATOM"); ("sample.m8", "hits"); ("empty.m8", "");
      ("sample_tblastn.tsv", "tblastn"); ("tied_tblastn.tsv", "tied") ].

Definition world : World := mkWorld files [] [].

End Sample.

(** The table of the sample hits, as [read_csv] builds it. *)
Definition sample_hits_table : DataFrame := mkDataFrame m8_names (range_index Sample.hits).

(** * Further definitions *)

(** The tools of the sample on a machine where [shutil.which] finds
    nothing. *)
Definition tools_off_path : Externals :=
  {| parse_names := Sample.sample_parse_names;
     parse_header := Sample.sample_parse_header;
     argsort := Sample.quicksort_argsort;
     float_str := Sample.sample_float_str;
     fasta_format := Sample.sample_fasta_format;
     external := Sample.sample_external;
     which := fun _ => None;
     getenv := Sample.sample_getenv |}.

(** An event is a call of [run_blastdbcmd]. *)
Definition is_blastdbcmd (ev : Event) : bool :=
  match ev with
  | EvBlastdbcmd _ _ _ _ _ _ => true
  | _ => false
  end.

(** Tools whose parser answers a given table whatever the text, with the
    sorting routine of the sample. *)
Definition tools_reading (header : list string) (table : list (list cell)) : Externals :=
  {| parse_names := fun _ _ => inr table;
     parse_header := fun _ => inr (header, table);
     argsort := Sample.quicksort_argsort;
     float_str := Sample.sample_float_str;
     fasta_format := Sample.sample_fasta_format;
     external := Sample.sample_external;
     which := Sample.sample_which;
     getenv := Sample.sample_getenv |}.


(** A computation adds events to the trace, none of them a call of
    [run_blastdbcmd]. *)
Definition never_extracts {A} (m : M A) : Prop :=
  forall w, exists evs,
    trace (snd (m w)) = trace w ++ evs /\
    forallb (fun ev => negb (is_blastdbcmd ev)) evs = true.

(** A structural hit whose header is a number. *)
Definition hit_with_numeric_header : list cell :=
  <[1 := CInt 7]> (Sample.hit "seq9" 80 Sample.e20 "GATTACA" 562 "Escherichia coli").

(** The call of the translated search for an input. *)
Definition tblastn_call (args : gmap string argval) (input : string) : Event :=
  EvTblastn (attr args "target_sequence_db_path")
    (path_stem input +:+ "_nodup.fasta") (path_stem input +:+ "_tblastn.tsv")
    (attr args "block") (attr args "tblastn_binary_path")
    (attr args "parallel_binary_path") (attr args "evalue").

(** A string has no path separator. *)
Definition no_separator (s : string) : bool :=
  forallb (fun c => negb (Ascii.eqb c "/")) (list_ascii_of_string s).

(** The tools of the sample with external programs that all fail. *)
Definition tools_failing : Externals :=
  {| parse_names := Sample.sample_parse_names;
     parse_header := Sample.sample_parse_header;
     argsort := Sample.quicksort_argsort;
     float_str := Sample.sample_float_str;
     fasta_format := Sample.sample_fasta_format;
     external := fun _ files => (Some (ExternalError "non-zero exit status"), files);
     which := Sample.sample_which;
     getenv := Sample.sample_getenv |}.

(** * Properties *)

(** ** Running a computation step by step *)

Lemma bind_inr {A B} (m : M A) (k : A -> M B) w a w' :
  m w = (inr a, w') -> bind m k w = k a w'.
Proof. intros Hm. unfold bind. now rewrite Hm. Qed.

Lemma bind_inl {A B} (m : M A) (k : A -> M B) w e w' :
  m w = (inl e, w') -> bind m k w = (inl e, w').
Proof. intros Hm. unfold bind. now rewrite Hm. Qed.

Lemma bind_inv {A B} (m : M A) (k : A -> M B) w b w' :
  bind m k w = (inr b, w') ->
  exists a w1, m w = (inr a, w1) /\ k a w1 = (inr b, w').
Proof.
  unfold bind. destruct (m w) as [[e|a] w1]; intros Hk; [discriminate|].
  now exists a, w1.
Qed.

Lemma rbind_inv {A B} (r : exn + A) (k : A -> exn + B) b :
  rbind r k = inr b -> exists a, r = inr a /\ k a = inr b.
Proof. destruct r as [e|a]; simpl; intros Hk; [discriminate|]. now exists a. Qed.

(** ** Tables *)

Lemma range_index_cells body : List.map snd (range_index body) = body.
Proof.
  unfold range_index. generalize 0 as k.
  assert (Hgen : forall (f : nat -> nat) (l : list (list cell)),
             List.map snd (imap (fun i row => (f i, row)) l) = l).
  { intros f l. revert f. induction l as [|x l IH]; intros f; simpl; [reflexivity|].
    f_equal. apply (IH (fun i => f (S i))). }
  intros _. apply (Hgen (fun i => i)).
Qed.

Lemma series_cmp_numeric op s t :
  numeric s = true ->
  series_cmp op s t = inr (List.map (cmp_holds op t) s).
Proof.
  induction s as [|c s IH]; simpl; intros Hn; [reflexivity|].
  apply andb_prop in Hn as [Hc Hs]. rewrite (IH Hs).
  unfold cell_cmp, cmp_holds. apply bool_decide_eq_true in Hc as [f Hf]. now rewrite Hf.
Qed.

Lemma series_cmp_inv_numeric op s t mask :
  series_cmp op s t = inr mask ->
  numeric s = true.
Proof.
  revert mask. induction s as [|c s IH]; simpl; intros mask Hm; [reflexivity|].
  unfold cell_cmp in Hm. destruct (cell_float c) as [f|] eqn:Hc; simpl in Hm; [|discriminate].
  destruct (series_cmp op s t) as [e|bs]; simpl in Hm; [discriminate|].
  rewrite (IH bs eq_refl), andb_true_r. apply bool_decide_eq_true. now exists f.
Qed.

Lemma select_map_filter {A} (p : A -> bool) (l : list A) :
  select (List.map p l) l = List.filter p l.
Proof.
  induction l as [|x l IH]; simpl; [reflexivity|].
  destruct (p x); now rewrite IH.
Qed.

Lemma lookup_second_new {A} (l : list A) a b :
  (l ++ [a; b]) !! S (length l) = Some b.
Proof.
  rewrite lookup_app_r by lia.
  replace (S (length l) - length l) with 1 by lia. reflexivity.
Qed.

(** ** filtering_m8file *)

Lemma getitem_range_index cols label j body :
  column_index label cols = Some j ->
  getitem (mkDataFrame cols (range_index body)) label = inr (List.map (cell_at j) body).
Proof.
  intros Hj. unfold getitem. simpl. rewrite Hj. f_equal.
  rewrite <- (range_index_cells body) at 2. now rewrite List.map_map.
Qed.

(** What a run of [filtering_m8file] on a readable table does to the world. *)
Lemma filtering_m8file_run `{Externals} w file t text body :
  fs w !! file = Some text ->
  parse_names m8_names text = inr body ->
  numeric (List.map (field m8_names "evalue") body) = true ->
  filtering_m8file file t w =
    (inr (S (length (heap w))),
     mkWorld (fs w)
       (heap w ++ [mkDataFrame m8_names (range_index body);
                   mkDataFrame m8_names (List.filter (evalue_below t) (range_index body))])
       (trace w ++ [EvRead file])).
Proof.
  intros Hfile Hparse Hnum.
  unfold filtering_m8file, read_csv_names.
  unfold bind at 1. unfold bind at 1. unfold log at 1. cbn [fst snd].
  unfold bind at 1. unfold read_file at 1. cbn [fs]. rewrite Hfile.
  unfold bind at 1. unfold lift at 1. rewrite Hparse.
  unfold alloc at 1. cbn [heap fs trace].
  unfold bind at 1. unfold deref at 1. cbn [heap].
  rewrite list_lookup_middle by reflexivity.
  unfold bind at 1. unfold lift at 1.
  rewrite (getitem_range_index m8_names "evalue" 11 body eq_refl).
  unfold bind at 1. unfold lift at 1. unfold series_lt.
  change (List.map (cell_at 11) body) with (List.map (field m8_names "evalue") body).
  rewrite (series_cmp_numeric _ _ _ Hnum).
  unfold alloc, getitem_mask. cbn [heap fs trace columns rows].
  rewrite length_app. cbn [length]. rewrite Nat.add_1_r.
  f_equal. f_equal.
  rewrite <- List.app_assoc. cbn [app]. do 4 f_equal.
  rewrite <- (range_index_cells body) at 1. rewrite !List.map_map.
  exact (select_map_filter (evalue_below t) (range_index body)).
Qed.

(** A run that returns a table went through a readable, numeric table. *)
Lemma filtering_m8file_inv `{Externals} w file t l w' :
  filtering_m8file file t w = (inr l, w') ->
  exists text body,
    fs w !! file = Some text /\
    parse_names m8_names text = inr body /\
    numeric (List.map (field m8_names "evalue") body) = true.
Proof.
  unfold filtering_m8file, read_csv_names. intros Hrun.
  apply bind_inv in Hrun as (df & w1 & Hread & Hrun).
  apply bind_inv in Hread as ([] & w2 & Hlog & Hread).
  apply bind_inv in Hread as (text & w3 & Htext & Hread).
  apply bind_inv in Hread as (body & w4 & Hbody & Halloc).
  unfold log in Hlog. inversion Hlog; subst w2; clear Hlog.
  unfold read_file in Htext. cbn [fs] in Htext.
  destruct (fs w !! file) as [text'|] eqn:Hfile; [|discriminate].
  inversion Htext; subst text' w3; clear Htext.
  unfold lift in Hbody. inversion Hbody as [[Hparse Hw4]]; subst w4.
  exists text, body. split; [reflexivity|]. split; [exact Hparse|].
  unfold alloc in Halloc. inversion Halloc; subst df w1; clear Halloc.
  apply bind_inv in Hrun as (d & w5 & Hd & Hrun).
  unfold deref in Hd. cbn [heap] in Hd.
  rewrite list_lookup_middle in Hd by reflexivity.
  inversion Hd; subst d w5; clear Hd.
  apply bind_inv in Hrun as (ev & w6 & Hev & Hrun).
  unfold lift in Hev.
  rewrite (getitem_range_index m8_names "evalue" 11 body eq_refl) in Hev.
  inversion Hev; subst ev w6; clear Hev.
  apply bind_inv in Hrun as (mask & w7 & Hmask & _).
  unfold lift in Hmask. inversion Hmask as [[Hm Hw7]].
  now apply series_cmp_inv_numeric in Hm.
Qed.

(** C2: on a readable structural-hit table with numeric e-values,
    [filtering_m8file] returns a table with the same 21 columns whose rows are
    exactly the rows with an e-value strictly below the threshold, in the
    order of the input and under their labels. *)
Theorem filtering_m8file_keeps_rows_below_threshold `{Externals} w file t text body :
  fs w !! file = Some text ->
  parse_names m8_names text = inr body ->
  numeric (List.map (field m8_names "evalue") body) = true ->
  exists l w' out,
    filtering_m8file file t w = (inr l, w') /\
    heap w' !! l = Some out /\
    columns out = m8_names /\
    rows out = List.filter (evalue_below t) (range_index body) /\
    (forall r, In r (rows out) <-> In r (range_index body) /\ evalue_below t r = true).
Proof.
  intros Hfile Hparse Hnum.
  eexists _, _, (mkDataFrame m8_names (List.filter (evalue_below t) (range_index body))).
  split; [apply (filtering_m8file_run w file t text body Hfile Hparse Hnum)|].
  cbn [heap columns rows]. split.
  - apply lookup_second_new.
  - split; [reflexivity|]. split; [reflexivity|]. intros r. apply List.filter_In.
Qed.

Lemma filtering_m8file_keeps_rows_below_threshold_sample :
  exists l w' out,
    @filtering_m8file Sample.tools "sample.m8"
      default_eval_threshold Sample.world = (inr l, w') /\
    heap w' !! l = Some out /\
    columns out = m8_names /\
    rows out = List.filter (evalue_below default_eval_threshold) (range_index Sample.hits) /\
    (forall r, In r (rows out) <->
       In r (range_index Sample.hits) /\ evalue_below default_eval_threshold r = true).
Proof.
  apply (@filtering_m8file_keeps_rows_below_threshold
           Sample.tools Sample.world "sample.m8"
           default_eval_threshold "hits" Sample.hits).
  - vm_compute. reflexivity.
  - reflexivity.
  - vm_compute. reflexivity.
Defined.

(** The scenario of the specification: e-values [1e-20] and [1e-5], threshold
    [1e-10]; the row with [1e-5] goes. *)
Example filtering_m8file_scenario :
  List.map fst (List.filter (evalue_below default_eval_threshold) (range_index Sample.hits))
  = [0; 2; 3].
Proof. vm_compute. reflexivity. Qed.

(** C6: a file that parses to a table without rows gives a filtered table
    without rows, and no exception. *)
Theorem filtering_m8file_empty_table `{Externals} w file t text :
  fs w !! file = Some text ->
  parse_names m8_names text = inr [] ->
  exists l w',
    filtering_m8file file t w = (inr l, w') /\
    heap w' !! l = Some (mkDataFrame m8_names []).
Proof.
  intros Hfile Hparse.
  eexists _, _.
  split; [apply (filtering_m8file_run w file t text [] Hfile Hparse eq_refl)|].
  cbn [heap]. apply lookup_second_new.
Qed.

Lemma filtering_m8file_empty_table_sample :
  exists l w',
    @filtering_m8file Sample.tools "empty.m8"
      default_eval_threshold Sample.world = (inr l, w') /\
    heap w' !! l = Some (mkDataFrame m8_names []).
Proof.
  apply (@filtering_m8file_empty_table Sample.tools
           Sample.world "empty.m8" default_eval_threshold "").
  - vm_compute. reflexivity.
  - reflexivity.
Defined.

Lemma filter_idempotent {A} (p : A -> bool) (l : list A) :
  List.filter p (List.filter p l) = List.filter p l.
Proof.
  induction l as [|x l IH]; simpl; [reflexivity|].
  destruct (p x) eqn:Hp; simpl; [rewrite Hp; f_equal|]; exact IH.
Qed.

Lemma filter_all {A} (p : A -> bool) (l : list A) :
  forallb p l = true -> List.filter p l = l.
Proof.
  induction l as [|x l IH]; simpl; [reflexivity|].
  intros Hp. apply andb_prop in Hp as [Hx Hl]. rewrite Hx. f_equal. now apply IH.
Qed.

Lemma forallb_filter {A} (p : A -> bool) (l : list A) :
  forallb p (List.filter p l) = true.
Proof.
  induction l as [|x l IH]; simpl; [reflexivity|].
  destruct (p x) eqn:Hp; simpl; [rewrite Hp|]; exact IH.
Qed.

Lemma forallb_map {A B} (f : A -> B) (p : B -> bool) (l : list A) :
  forallb p (List.map f l) = forallb (fun x => p (f x)) l.
Proof. induction l as [|x l IH]; simpl; [reflexivity|]. now rewrite IH. Qed.

Lemma forallb_filter_weaken {A} (p q : A -> bool) (l : list A) :
  forallb q l = true -> forallb q (List.filter p l) = true.
Proof.
  induction l as [|x l IH]; simpl; [reflexivity|].
  intros Hq. apply andb_prop in Hq as [Hx Hl].
  destruct (p x); simpl; [rewrite Hx|]; now apply IH.
Qed.

Lemma getitem_cells df label j :
  column_index label (columns df) = Some j ->
  getitem df label = inr (List.map (cell_at j) (cells df)).
Proof.
  intros Hj. unfold getitem, cells. rewrite Hj. now rewrite List.map_map.
Qed.

Lemma range_index_filter_all (p : list cell -> bool) (body : list (list cell)) :
  forallb p body = true ->
  List.filter (fun r => p (snd r)) (range_index body) = range_index body.
Proof.
  intros Hp. apply filter_all.
  rewrite <- (forallb_map snd p), range_index_cells. exact Hp.
Qed.

(** C7: filtering is idempotent.  Once [filtering_m8file] has returned a
    table, the mask expression applied to that table with the same threshold
    keeps all of it, and [filtering_m8file] run on a file holding that table
    returns its cells unchanged. *)
Theorem filtering_m8file_idempotent `{Externals} w file t l w1 d1 :
  filtering_m8file file t w = (inr l, w1) ->
  heap w1 !! l = Some d1 ->
  (exists mask,
     rbind (getitem d1 "evalue") (fun evalue => series_lt evalue t) = inr mask /\
     getitem_mask d1 mask = d1) /\
  (forall w2 file2 text2,
     fs w2 !! file2 = Some text2 ->
     parse_names m8_names text2 = inr (cells d1) ->
     exists l2 w3 d2,
       filtering_m8file file2 t w2 = (inr l2, w3) /\
       heap w3 !! l2 = Some d2 /\
       columns d2 = columns d1 /\
       cells d2 = cells d1).
Proof.
  intros Hrun Hd1.
  destruct (filtering_m8file_inv _ _ _ _ _ Hrun) as (text & body & Hfile & Hparse & Hnum).
  rewrite (filtering_m8file_run w file t text body Hfile Hparse Hnum) in Hrun.
  inversion Hrun; subst l w1; clear Hrun.
  cbn [heap] in Hd1. rewrite lookup_second_new in Hd1.
  inversion Hd1; subst d1; clear Hd1.
  set (kept := List.filter (evalue_below t) (range_index body)).
  assert (Hkept : forallb (evalue_below t) kept = true) by apply forallb_filter.
  assert (Hnum' : numeric (List.map (field m8_names "evalue") (List.map snd kept)) = true).
  { unfold numeric in *. rewrite !forallb_map.
    rewrite forallb_map in Hnum.
    rewrite <- (range_index_cells body), forallb_map in Hnum.
    now apply forallb_filter_weaken. }
  split.
  - exists (List.map (evalue_below t) kept). split.
    + rewrite (getitem_cells (mkDataFrame m8_names kept) "evalue" 11 eq_refl). cbn [rbind]. unfold series_lt.
      change (List.map (cell_at 11)) with (List.map (field m8_names "evalue")).
      unfold cells. cbn [rows]. rewrite (series_cmp_numeric _ _ _ Hnum').
      now rewrite !List.map_map.
    + unfold getitem_mask. cbn [columns rows]. f_equal.
      rewrite select_map_filter. now apply filter_all.
  - intros w2 file2 text2 Hfile2 Hparse2. unfold cells in *. cbn [rows columns] in *.
    eexists _, _, _.
    split; [apply (filtering_m8file_run w2 file2 t text2 _ Hfile2 Hparse2 Hnum')|].
    cbn [heap]. split; [apply lookup_second_new|]. cbn [columns rows].
    split; [reflexivity|].
    assert (Hall : List.filter (evalue_below t) (range_index (List.map snd kept))
                   = range_index (List.map snd kept)).
    { apply (range_index_filter_all
               (fun row => cmp_holds PrimFloat.ltb t (field m8_names "evalue" row))).
      rewrite forallb_map. exact Hkept. }
    rewrite Hall. apply range_index_cells.
Qed.

Lemma filtering_m8file_idempotent_sample :
  let run := @filtering_m8file Sample.tools "sample.m8"
               default_eval_threshold Sample.world in
  let d1 := mkDataFrame m8_names
              (List.filter (evalue_below default_eval_threshold) (range_index Sample.hits)) in
  (exists mask,
     rbind (getitem d1 "evalue") (fun evalue => series_lt evalue default_eval_threshold)
       = inr mask /\
     getitem_mask d1 mask = d1) /\
  (forall w2 file2 text2,
     fs w2 !! file2 = Some text2 ->
     Sample.sample_parse_names m8_names text2 = inr (cells d1) ->
     exists l2 w3 d2,
       @filtering_m8file Sample.tools file2
         default_eval_threshold w2 = (inr l2, w3) /\
       heap w3 !! l2 = Some d2 /\
       columns d2 = columns d1 /\
       cells d2 = cells d1).
Proof.
  intros run d1.
  apply (@filtering_m8file_idempotent Sample.tools
           Sample.world "sample.m8" default_eval_threshold 1 (snd run) d1).
  - vm_compute. reflexivity.
  - vm_compute. reflexivity.
Defined.

(** ** The frame of the table operations *)

Lemma read_only_bind {A B} (m : M A) (k : A -> M B) :
  read_only m -> (forall a, read_only (k a)) -> read_only (bind m k).
Proof.
  intros Hm Hk w. unfold bind. specialize (Hm w).
  destruct (m w) as [[e|a] w1]; cbn [snd] in *; [exact Hm|].
  destruct Hm as [Hfs Hheap]. destruct (Hk a w1) as [Hfs' Hheap'].
  split; [congruence|]. now transitivity (heap w1).
Qed.

Lemma read_only_lift {A} (r : exn + A) : read_only (lift r).
Proof. intros w. now split. Qed.

Lemma read_only_log ev : read_only (log ev).
Proof. intros w. now split. Qed.

Lemma read_only_read_file path : read_only (read_file path).
Proof. intros w. unfold read_file. destruct (fs w !! path); now split. Qed.

Lemma read_only_deref l : read_only (deref l).
Proof. intros w. unfold deref. destruct (heap w !! l); now split. Qed.

Lemma read_only_alloc df : read_only (alloc df).
Proof. intros w. split; [reflexivity|]. cbn. now apply prefix_app_r. Qed.

Lemma returns_new_alloc df : returns_new (alloc df).
Proof. intros w l w' Hrun. unfold alloc in Hrun. inversion Hrun. lia. Qed.

Lemma returns_new_bind {A} (m : M A) (k : A -> M nat) :
  read_only m -> (forall a, returns_new (k a)) -> returns_new (bind m k).
Proof.
  intros Hm Hk w l w' Hrun.
  apply bind_inv in Hrun as (a & w1 & Hma & Hka).
  destruct (Hm w) as [_ Hheap]. rewrite Hma in Hheap. cbn [snd] in Hheap.
  apply prefix_length in Hheap. specialize (Hk a w1 l w' Hka). lia.
Qed.

Ltac read_only_steps :=
  repeat (apply read_only_bind; [|intros ?]);
  auto using read_only_log, read_only_read_file, read_only_lift, read_only_alloc,
    read_only_deref.

Ltac returns_new_steps :=
  repeat (apply returns_new_bind; [read_only_steps|intros ?]);
  auto using returns_new_alloc.

Lemma read_only_read_csv_names `{Externals} file names : read_only (read_csv_names file names).
Proof.
  unfold read_csv_names.
  read_only_steps.
Qed.

Lemma read_only_read_csv_header `{Externals} file : read_only (read_csv_header file).
Proof.
  unfold read_csv_header.
  read_only_steps.
Qed.

Lemma read_only_filtering_m8file `{Externals} file t : read_only (filtering_m8file file t).
Proof.
  unfold filtering_m8file.
  read_only_steps.
Qed.

Lemma read_only_filtering_by_pident `{Externals} infile p label :
  read_only (filtering_by_pident infile p label).
Proof.
  unfold filtering_by_pident.
  read_only_steps.
Qed.

Lemma returns_new_filtering_m8file `{Externals} file t : returns_new (filtering_m8file file t).
Proof.
  unfold filtering_m8file.
  returns_new_steps.
Qed.

Lemma returns_new_filtering_by_pident `{Externals} infile p label :
  returns_new (filtering_by_pident infile p label).
Proof.
  unfold filtering_by_pident.
  returns_new_steps.
Qed.

Lemma remove_duplicates_same_world `{Externals} hits w :
  snd (remove_duplicates hits w) = w.
Proof.
  unfold remove_duplicates, bind, deref, lift.
  destruct (heap w !! hits); reflexivity.
Qed.

(** C10: the three table operations only read.  Whatever they return or
    raise, the files are as before, every table that was on the heap is still
    there under its reference with the same columns, rows and order, and the
    table a filter returns is a new one; [remove_duplicates] leaves the whole
    world as it found it. *)
Theorem table_operations_read_only `{Externals} :
  (forall file t w,
     let r := filtering_m8file file t w in
     fs (snd r) = fs w /\
     (forall l df, heap w !! l = Some df -> heap (snd r) !! l = Some df) /\
     (forall l, fst r = inr l -> length (heap w) <= l)) /\
  (forall hits w, snd (remove_duplicates hits w) = w) /\
  (forall infile p label w,
     let r := filtering_by_pident infile p label w in
     fs (snd r) = fs w /\
     (forall l df, heap w !! l = Some df -> heap (snd r) !! l = Some df) /\
     (forall l, fst r = inr l -> length (heap w) <= l)).
Proof.
  split; [|split].
  - intros file t w r.
    destruct (read_only_filtering_m8file file t w) as [Hfs Hheap].
    split; [exact Hfs|]. split.
    + intros l df Hl. now apply (prefix_lookup_Some _ _ _ _ Hl).
    + intros l Hl. apply (returns_new_filtering_m8file file t w l (snd r)).
      subst r. destruct (filtering_m8file file t w) as [r0 w0]. cbn in *. now rewrite Hl.
  - apply remove_duplicates_same_world.
  - intros infile p label w r.
    destruct (read_only_filtering_by_pident infile p label w) as [Hfs Hheap].
    split; [exact Hfs|]. split.
    + intros l df Hl. now apply (prefix_lookup_Some _ _ _ _ Hl).
    + intros l Hl. apply (returns_new_filtering_by_pident infile p label w l (snd r)).
      subst r. destruct (filtering_by_pident infile p label w) as [r0 w0]. cbn in *. now rewrite Hl.
Qed.

(** ** check_binaries_available *)

(** A missing binary stops the program with [FileNotFoundError], in the world
    as it was. *)
Lemma check_binaries_available_missing w p t f :
  fs w !! p = None \/ fs w !! t = None \/ fs w !! f = None ->
  exists msg,
    check_binaries_available (VStr p) (VStr t) (VStr f) w = (inl (FileNotFoundError msg), w).
Proof.
  intros Hmiss. unfold check_binaries_available, bind, lift, exists_, raise, ret.
  cbn [Path fst snd].
  destruct (fs w !! p) as [xp|] eqn:Hp; cbn; [|eauto].
  destruct (fs w !! t) as [xt|] eqn:Ht; cbn; [|eauto].
  destruct (fs w !! f) as [xf|] eqn:Hf; cbn; [|eauto].
  destruct Hmiss as [Hm|[Hm|Hm]]; discriminate.
Qed.

(** C1 (the code departs from the claim): the messages of the first and the
    third check are exchanged.  With the parallel binary missing the message
    names foldseek, and with the foldseek binary missing it names parallel. *)
Theorem check_binaries_available_names_other_tool :
  let without_parallel :=
    mkWorld (list_to_map [("/usr/bin/tblastn", "#!"); ("/usr/bin/foldseek", "#!")]) [] [] in
  let without_foldseek :=
    mkWorld (list_to_map [("/usr/bin/parallel", "#!"); ("/usr/bin/tblastn", "#!")]) [] [] in
  check_binaries_available (VStr "/usr/bin/parallel") (VStr "/usr/bin/tblastn")
    (VStr "/usr/bin/foldseek") without_parallel
  = (inl (FileNotFoundError "foldseek not found. Please set PATH to foldseek."),
     without_parallel) /\
  check_binaries_available (VStr "/usr/bin/parallel") (VStr "/usr/bin/tblastn")
    (VStr "/usr/bin/foldseek") without_foldseek
  = (inl (FileNotFoundError "parallel not found. Please set PATH to parallel."),
     without_foldseek).
Proof. split; vm_compute; reflexivity. Qed.

(** ** remove_duplicates *)

Lemma select_length {A} (mask : list bool) (l : list A) :
  length (select mask l) <= length l.
Proof.
  revert l. induction mask as [|b mask IH]; intros [|x l]; simpl; try lia.
  specialize (IH l). destruct b; simpl; lia.
Qed.

Lemma select_map {A B} (f : A -> B) (mask : list bool) (l : list A) :
  select mask (List.map f l) = List.map f (select mask l).
Proof.
  revert l. induction mask as [|b mask IH]; intros [|x l]; simpl; try reflexivity.
  destruct b; simpl; now rewrite IH.
Qed.

Lemma first_flags_length keys seen : length (first_flags keys seen) = length keys.
Proof.
  revert seen. induction keys as [|k keys IH]; intros seen; simpl; [reflexivity|].
  case_bool_decide; simpl; now rewrite IH.
Qed.

(** A key is flagged exactly when it was not met before. *)
Lemma first_flags_spec keys seen j k :
  keys !! j = Some k ->
  (first_flags keys seen !! j = Some true <->
   (k ∉ seen) /\ (forall i k', i < j -> keys !! i = Some k' -> k' <> k)).
Proof.
  revert seen j. induction keys as [|k0 keys IH]; intros seen j Hj; [discriminate|].
  destruct j as [|j]; simpl in *.
  - inversion Hj; subst k0. case_bool_decide; simpl.
    + split; [discriminate|]. intros [Hk _]. contradiction.
    + split; [|reflexivity]. intros _. split; [assumption|]. intros i k' Hi. lia.
  - case_bool_decide as Hk0; simpl; rewrite (IH _ j Hj).
    + split; intros [Hk Hfirst]; (split; [exact Hk|]).
      * intros [|i] k' Hi Hk'; simpl in Hk'.
        -- inversion Hk'; subst k'. intros ->. contradiction.
        -- apply (Hfirst i); [lia|exact Hk'].
      * intros i k' Hi Hk'. apply (Hfirst (S i)); [lia|exact Hk'].
    + split; intros [Hk Hfirst].
      * split; [set_solver|].
        intros [|i] k' Hi Hk'; simpl in Hk'.
        -- inversion Hk'; subst k'. set_solver.
        -- apply (Hfirst i); [lia|exact Hk'].
      * split.
        -- assert (k0 <> k) by (apply (Hfirst 0); [lia|reflexivity]). set_solver.
        -- intros i k' Hi Hk'. apply (Hfirst (S i)); [lia|exact Hk'].
Qed.

(** The flagged keys are new and pairwise different. *)
Lemma first_flags_NoDup keys seen :
  NoDup (select (first_flags keys seen) keys) /\
  forall k, k ∈ select (first_flags keys seen) keys -> k ∉ seen.
Proof.
  revert seen. induction keys as [|k0 keys IH]; intros seen; simpl.
  - split; [constructor|]. intros k Hk. inversion Hk.
  - case_bool_decide as Hk0; simpl.
    + apply IH.
    + destruct (IH ({[k0]} ∪ seen)) as [Hnd Hnew]. split.
      * constructor; [|exact Hnd]. intros Hin. apply Hnew in Hin. set_solver.
      * intros k Hk. apply elem_of_cons in Hk as [->|Hk]; [exact Hk0|].
        apply Hnew in Hk. set_solver.
Qed.

Lemma row_getitem_field cols row label :
  is_Some (column_index label cols) ->
  row_getitem cols row label = inr (field cols label row).
Proof.
  intros [j Hj]. unfold row_getitem, field. now rewrite Hj.
Qed.

(** On a row of a table of structural hits the constructor calls succeed. *)
Lemma hit_record_ok `{Externals} cols row :
  forallb (fun label => bool_decide (is_Some (column_index label cols)))
    ["theader"; "tseq"; "pident"; "evalue"; "taxid"; "taxname"] = true ->
  is_str (field cols "theader" row) && is_ascii_str (field cols "tseq" row) = true ->
  hit_record cols row = inr (record_of cols row).
Proof.
  intros Hcols Hrow. cbn [forallb] in Hcols.
  repeat (apply andb_prop in Hcols as [?%bool_decide_eq_true Hcols]).
  apply andb_prop in Hrow as [Hth Hts].
  unfold hit_record. rewrite !row_getitem_field by assumption. cbn [rbind].
  unfold record_of.
  destruct (field cols "theader" row) as [?|?|th]; try discriminate.
  destruct (field cols "tseq" row) as [?|?|ts]; try discriminate.
  cbn [is_ascii_str] in Hts. cbn [Seq]. rewrite Hts. reflexivity.
Qed.

(** The loop emits, after the records it already holds, the records of the
    rows whose sequence is met for the first time. *)
Lemma remove_duplicates_loop_spec `{Externals} cols its seen nodups :
  forallb (fun label => bool_decide (is_Some (column_index label cols)))
    ["theader"; "tseq"; "pident"; "evalue"; "taxid"; "taxname"] = true ->
  forallb (fun r => is_str (field cols "theader" (snd r))
                    && is_ascii_str (field cols "tseq" (snd r))) its = true ->
  remove_duplicates_loop cols its seen nodups =
    inr (nodups ++ List.map (record_of cols)
           (List.map snd (select (first_flags (List.map (tseq_of cols) its) seen) its))).
Proof.
  intros Hcols. revert seen nodups.
  induction its as [|[i row] its IH]; intros seen nodups Hrows; simpl.
  - now rewrite List.app_nil_r.
  - apply andb_prop in Hrows as [Hrow Hrows]. cbn [snd] in Hrow.
    assert (Htseq : is_Some (column_index "tseq" cols)).
    { cbn [forallb] in Hcols. apply andb_prop in Hcols as [_ Hcols].
      apply andb_prop in Hcols as [Ht _]. now apply bool_decide_eq_true in Ht. }
    rewrite (row_getitem_field cols row "tseq" Htseq). cbn [rbind].
    rewrite (hit_record_ok cols row Hcols Hrow). cbn [rbind].
    change (tseq_of cols (i, row)) with (str_of (field cols "tseq" row)).
    apply andb_prop in Hrow as [_ Hts].
    destruct (field cols "tseq" row) as [?|?|ts]; try discriminate.
    cbn [in_seen seen_add str_of].
    case_bool_decide; cbn [negb].
    + now rewrite IH.
    + rewrite IH by assumption. cbn [select List.map]. now rewrite <- List.app_assoc.
Qed.

(** C3: on a table of structural hits [remove_duplicates] returns, without
    touching the world, the records of some of the rows in the order of the
    table ([select] keeps the order).  A row is kept exactly when no earlier
    row has its sequence; its record is the one the constructor call builds
    from that very row (header, sequence and metadata).  Hence there are no
    more records than rows, and no sequence occurs twice among them. *)
Theorem remove_duplicates_keeps_first_occurrences `{Externals} w hits df :
  heap w !! hits = Some df ->
  structural_hits df = true ->
  exists mask recs,
    remove_duplicates hits w = (inr recs, w) /\
    recs = List.map (record_of (columns df)) (List.map snd (select mask (rows df))) /\
    length mask = length (rows df) /\
    (forall j r, rows df !! j = Some r ->
       (mask !! j = Some true <->
        forall i r', i < j -> rows df !! i = Some r' ->
                     tseq_of (columns df) r' <> tseq_of (columns df) r)) /\
    Forall (fun r => hit_record (columns df) (snd r)
                     = inr (record_of (columns df) (snd r))) (rows df) /\
    length recs <= length (rows df) /\
    NoDup (List.map seq recs).
Proof.
  intros Hhits Hwf. unfold structural_hits in Hwf.
  apply andb_prop in Hwf as [Hcols Hrows].
  set (cols := columns df) in *.
  set (keys := List.map (tseq_of cols) (rows df)).
  exists (first_flags keys ∅). eexists. split; [|split; [reflexivity|]].
  - unfold remove_duplicates, bind, deref, lift. rewrite Hhits.
    now rewrite (remove_duplicates_loop_spec cols (rows df) ∅ [] Hcols Hrows).
  - split; [|split; [|split; [|split]]].
    + unfold keys. now rewrite first_flags_length, length_map.
    + intros j r Hj.
      assert (Hk : keys !! j = Some (tseq_of cols r)).
      { unfold keys. change (List.map (tseq_of cols) (rows df)) with (tseq_of cols <$> rows df).
        now rewrite list_lookup_fmap, Hj. }
      rewrite (first_flags_spec keys ∅ j _ Hk). split.
      * intros [_ Hfirst] i r' Hi Hr'. apply (Hfirst i); [exact Hi|].
        unfold keys. change (List.map (tseq_of cols) (rows df)) with (tseq_of cols <$> rows df).
        now rewrite list_lookup_fmap, Hr'.
      * intros Hfirst. split; [set_solver|]. intros i k' Hi Hk'.
        unfold keys in Hk'.
        change (List.map (tseq_of cols) (rows df)) with (tseq_of cols <$> rows df) in Hk'.
        rewrite list_lookup_fmap in Hk'.
        destruct (rows df !! i) as [r'|] eqn:Hr'; [|discriminate].
        inversion Hk'; subst k'. now apply (Hfirst i).
    + apply List.Forall_forall. intros r Hr. apply hit_record_ok; [exact Hcols|].
      rewrite List.forallb_forall in Hrows. now apply Hrows.
    + rewrite !length_map. apply select_length.
    + rewrite !List.map_map.
      change (fun x : nat * list cell => seq (record_of cols (snd x))) with (tseq_of cols).
      rewrite <- select_map. apply first_flags_NoDup.
Qed.

Lemma remove_duplicates_keeps_first_occurrences_sample :
  let E := Sample.tools in
  let w := mkWorld Sample.files [sample_hits_table] [] in
  exists mask recs,
    @remove_duplicates E 0 w = (inr recs, w) /\
    recs = List.map (@record_of E m8_names) (List.map snd (select mask (rows sample_hits_table))) /\
    length mask = length (rows sample_hits_table) /\
    (forall j r, rows sample_hits_table !! j = Some r ->
       (mask !! j = Some true <->
        forall i r', i < j -> rows sample_hits_table !! i = Some r' ->
                     tseq_of m8_names r' <> tseq_of m8_names r)) /\
    Forall (fun r => @hit_record E m8_names (snd r)
                     = inr (@record_of E m8_names (snd r))) (rows sample_hits_table) /\
    length recs <= length (rows sample_hits_table) /\
    NoDup (List.map seq recs).
Proof.
  intros E w.
  apply (@remove_duplicates_keeps_first_occurrences E w 0 sample_hits_table).
  - reflexivity.
  - vm_compute. reflexivity.
Defined.

(** The scenario of the specification: hits [seq1] and [seq2] with the same
    sequence [ATGC] give one record, with identifier [seq1]. *)
Example remove_duplicates_scenario :
  let E := Sample.tools in
  let two := mkDataFrame m8_names
               (range_index [Sample.hit "seq1" 98.5 Sample.e20 "ATGC" 562 "Escherichia coli";
                             Sample.hit "seq2" 75 Sample.e5 "ATGC" 9606 "Homo sapiens"]) in
  match fst (@remove_duplicates E 0 (mkWorld ∅ [two] [])) with
  | inr [r] => id r = "seq1" /\ seq r = "ATGC"
  | _ => False
  end.
Proof. vm_compute. split; reflexivity. Qed.

(** ** filtering_by_pident *)

Lemma read_csv_header_run `{Externals} w file text cols body :
  fs w !! file = Some text ->
  parse_header text = inr (cols, body) ->
  read_csv_header file w =
    (inr (length (heap w)),
     mkWorld (fs w) (heap w ++ [mkDataFrame cols (range_index body)])
       (trace w ++ [EvRead file])).
Proof.
  intros Hfile Hparse. unfold read_csv_header, bind, log, read_file, lift, alloc.
  cbn [fs heap trace fst snd]. rewrite Hfile, Hparse. reflexivity.
Qed.

Lemma read_csv_header_malformed `{Externals} w file text e :
  fs w !! file = Some text ->
  parse_header text = inl e ->
  read_csv_header file w = (inl e, mkWorld (fs w) (heap w) (trace w ++ [EvRead file])).
Proof.
  intros Hfile Hparse. unfold read_csv_header, bind, log, read_file, lift.
  cbn [fs heap trace fst snd]. rewrite Hfile, Hparse. reflexivity.
Qed.

Lemma getitem_absent df label :
  column_index label (columns df) = None -> getitem df label = inl (KeyError label).
Proof. intros Hj. unfold getitem. now rewrite Hj. Qed.

(** C8: [filtering_by_pident] returns no table when the parser rejects the
    file or when the sort column is not among the columns of the header.  The
    exception of the parser goes through as it is; an absent sort column
    gives [KeyError] on its label once the identities have been compared. *)
Theorem filtering_by_pident_raises `{Externals} w infile p label text :
  fs w !! infile = Some text ->
  (exists e0, parse_header text = inl e0) \/
  (exists cols body, parse_header text = inr (cols, body) /\ column_index label cols = None) ->
  exists e,
    fst (filtering_by_pident infile p label w) = inl e /\
    (forall e0, parse_header text = inl e0 -> e = e0) /\
    (forall cols body pident mask,
       parse_header text = inr (cols, body) ->
       getitem (mkDataFrame cols (range_index body)) "pident" = inr pident ->
       series_ge pident p = inr mask ->
       e = KeyError label).
Proof.
  intros Hfile [[e0 Hbad]|(cols & body & Hparse & Habsent)].
  - exists e0. unfold filtering_by_pident.
    rewrite (bind_inl _ _ _ _ _ (read_csv_header_malformed w infile text e0 Hfile Hbad)).
    split; [reflexivity|]. split.
    + intros e1 He1. congruence.
    + intros cols body pident mask Hparse. congruence.
  - unfold filtering_by_pident.
    rewrite (bind_inr _ _ _ _ _ (read_csv_header_run w infile text cols body Hfile Hparse)).
    unfold bind at 1. unfold deref at 1. cbn [heap].
    rewrite list_lookup_middle by reflexivity.
    unfold bind at 1. unfold lift at 1.
    destruct (getitem _ "pident") as [e1|pident] eqn:Hpident.
    { exists e1. split; [reflexivity|]. split; intros; congruence. }
    unfold bind at 1. unfold lift at 1.
    destruct (series_ge pident p) as [e2|mask] eqn:Hmask.
    { exists e2. split; [reflexivity|]. split; [intros; congruence|].
      intros cols' body' pident' mask' Hparse' Hpident' Hmask'.
      rewrite Hparse in Hparse'. inversion Hparse'; subst cols' body'.
      rewrite Hpident in Hpident'. inversion Hpident'; subst pident'. congruence. }
    unfold bind at 1. unfold alloc at 1. cbn [heap fs trace].
    unfold bind at 1. unfold deref at 1. cbn [heap].
    rewrite list_lookup_middle by reflexivity.
    unfold bind at 1. unfold lift at 1. unfold sort_values.
    rewrite getitem_absent by exact Habsent. cbn [rbind fst].
    exists (KeyError label). split; [reflexivity|]. split; [intros; congruence|].
    reflexivity.
Qed.

Lemma filtering_by_pident_raises_sample :
  let E := Sample.tools in
  exists e,
    fst (@filtering_by_pident E "sample_tblastn.tsv" default_pident_threshold "accession"
           Sample.world) = inl e /\
    (forall e0, Sample.sample_parse_header "tblastn" = inl e0 -> e = e0) /\
    (forall cols body pident mask,
       Sample.sample_parse_header "tblastn" = inr (cols, body) ->
       getitem (mkDataFrame cols (range_index body)) "pident" = inr pident ->
       series_ge pident default_pident_threshold = inr mask ->
       e = KeyError "accession").
Proof.
  intros E.
  apply (@filtering_by_pident_raises E Sample.world "sample_tblastn.tsv"
           default_pident_threshold "accession" "tblastn").
  - vm_compute. reflexivity.
  - right. exists Sample.tblastn_columns, Sample.tblastn_body. split; reflexivity.
Defined.

(** *** Lists of positions *)

Lemma map_nth_seq {A} (l : list A) d :
  List.map (fun i => List.nth i l d) (List.seq 0 (length l)) = l.
Proof.
  induction l as [|x l IH]; simpl; [reflexivity|].
  f_equal. rewrite <- List.seq_shift, List.map_map. exact IH.
Qed.

Lemma omap_map {A B C} (f : B -> option C) (g : A -> B) (l : list A) :
  omap f (List.map g l) = omap (fun x => f (g x)) l.
Proof.
  induction l as [|x l IH]; [reflexivity|].
  cbn. rewrite IH. reflexivity.
Qed.

Lemma omap_lookup_seq {A} (l : list A) :
  omap (fun i => l !! i) (List.seq 0 (length l)) = l.
Proof.
  induction l as [|x l IH]; [reflexivity|].
  cbn. f_equal. rewrite <- List.seq_shift, omap_map. exact IH.
Qed.

Lemma map_filter_comm {A B} (f : A -> B) (p : B -> bool) (l : list A) :
  List.map f (List.filter (fun x => p (f x)) l) = List.filter p (List.map f l).
Proof.
  induction l as [|x l IH]; simpl; [reflexivity|].
  destruct (p (f x)); simpl; now rewrite IH.
Qed.

Lemma filter_partition_perm {A} (p : A -> bool) (l : list A) :
  List.filter (fun x => negb (p x)) l ++ List.filter p l ≡ₚ l.
Proof.
  induction l as [|x l IH]; simpl; [reflexivity|].
  destruct (p x); simpl.
  - rewrite <- Permutation_middle. now constructor.
  - now constructor.
Qed.

(** *** Ascending lists *)

Lemma ascending_app {A} (le : A -> A -> bool) (l1 l2 : list A) :
  ascending le l1 = true -> ascending le l2 = true ->
  (forall x y, In x l1 -> In y l2 -> le x y = true) ->
  ascending le (l1 ++ l2) = true.
Proof.
  induction l1 as [|a l1 IH]; simpl; intros H1 H2 Hcross; [exact H2|].
  apply andb_prop in H1 as [Ha H1]. apply andb_true_intro. split.
  - rewrite List.forallb_app. apply andb_true_intro. split; [exact Ha|].
    apply List.forallb_forall. intros y Hy. apply Hcross; [now left|exact Hy].
  - apply IH; [exact H1|exact H2|]. intros x y Hx Hy. apply Hcross; [now right|exact Hy].
Qed.

Lemma ascending_weaken {A} (le le' : A -> A -> bool) (l : list A) :
  (forall x y, In x l -> In y l -> le x y = true -> le' x y = true) ->
  ascending le l = true -> ascending le' l = true.
Proof.
  induction l as [|a l IH]; simpl; intros Hw Hasc; [reflexivity|].
  apply andb_prop in Hasc as [Ha Hl]. apply andb_true_intro. split.
  - apply List.forallb_forall. intros y Hy.
    rewrite List.forallb_forall in Ha. apply Hw; auto.
  - apply IH; [|exact Hl]. intros x y Hx Hy. apply Hw; auto.
Qed.

Lemma ascending_all_na (l : list cell) :
  forallb isna l = true -> ascending na_last_le l = true.
Proof.
  induction l as [|a l IH]; simpl; intros Hna; [reflexivity|].
  apply andb_prop in Hna as [_ Hl]. apply andb_true_intro. split; [|now apply IH].
  apply List.forallb_forall. intros y Hy. rewrite List.forallb_forall in Hl.
  unfold na_last_le. now rewrite (Hl y Hy).
Qed.

(** *** What a sorting routine that sorts gives *)

Lemma sorts_permutation keys indexer :
  sorts keys indexer = true -> indexer ≡ₚ List.seq 0 (length keys).
Proof.
  unfold sorts. intros Hs.
  apply andb_prop in Hs as [Hs _]. apply andb_prop in Hs as [Hlen Hall].
  apply bool_decide_eq_true in Hlen.
  symmetry. apply NoDup_Permutation_bis.
  - apply List.seq_NoDup.
  - rewrite List.length_seq. lia.
  - intros i Hi. rewrite List.forallb_forall in Hall. specialize (Hall i Hi).
    apply List.existsb_exists in Hall as (j & Hj & Hij).
    apply Nat.eqb_eq in Hij. now subst j.
Qed.

Lemma sorts_ascending keys indexer :
  sorts keys indexer = true ->
  ascending key_le (List.map (fun i => cell_at i keys) indexer) = true.
Proof. unfold sorts. intros Hs. now apply andb_prop in Hs as [_ Hs]. Qed.

Lemma sorts_in_range keys indexer i :
  sorts keys indexer = true -> In i indexer -> i < length keys.
Proof.
  intros Hs Hi. apply sorts_permutation in Hs.
  apply (Permutation_in _ Hs) in Hi. apply List.in_seq in Hi. lia.
Qed.

(** *** nargsort, take and sort_values *)

Lemma nargsort_non_nans keys :
  List.map (fun i => cell_at i keys)
    (List.filter (fun i => negb (isna (cell_at i keys))) (List.seq 0 (length keys)))
  = dropna keys.
Proof.
  rewrite (map_filter_comm (fun i => cell_at i keys) (fun c => negb (isna c))).
  unfold cell_at. now rewrite map_nth_seq.
Qed.

Lemma cell_at_lookup {A} (key : A -> cell) (rs : list A) i r :
  rs !! i = Some r -> cell_at i (List.map key rs) = key r.
Proof.
  intros Hr. unfold cell_at. rewrite nth_lookup.
  change (List.map key rs) with (key <$> rs). now rewrite list_lookup_fmap, Hr.
Qed.

Lemma dropna_present keys c : In c (dropna keys) -> isna c = false.
Proof.
  unfold dropna. intros Hc. apply List.filter_In in Hc as [_ Hc].
  now apply negb_true_iff in Hc.
Qed.

(** With a routine that sorts the present keys, [nargsort] lists every
    position once and reads the keys in ascending order, the missing ones
    last. *)
Lemma nargsort_spec `{Externals} keys :
  sortable (dropna keys) = true ->
  sorts (dropna keys) (argsort (dropna keys)) = true ->
  exists indexer,
    nargsort keys = inr indexer /\
    indexer ≡ₚ List.seq 0 (length keys) /\
    ascending na_last_le (List.map (fun i => cell_at i keys) indexer) = true.
Proof.
  intros Hsortable Hsorts. unfold nargsort.
  rewrite nargsort_non_nans, Hsortable.
  set (non_nan_idx := List.filter (fun i => negb (isna (cell_at i keys)))
                        (List.seq 0 (length keys))).
  set (nan_idx := List.filter (fun i => isna (cell_at i keys)) (List.seq 0 (length keys))).
  assert (Hlen : length (dropna keys) = length non_nan_idx).
  { rewrite <- nargsort_non_nans. apply length_map. }
  eexists. split; [reflexivity|]. split.
  - rewrite (sorts_permutation _ _ Hsorts), Hlen, map_nth_seq.
    apply (filter_partition_perm (fun i => isna (cell_at i keys))).
  - rewrite List.map_app. apply ascending_app.
    + rewrite List.map_map.
      rewrite (List.map_ext_in _ (fun i => cell_at i (dropna keys))).
      * apply (ascending_weaken key_le); [|now apply sorts_ascending].
        intros x y Hx _ Hxy. unfold na_last_le.
        assert (Hna : isna x = false).
        { apply List.in_map_iff in Hx as (i & <- & Hi).
          apply (dropna_present keys). apply List.nth_In.
          now apply (sorts_in_range _ _ _ Hsorts). }
        rewrite Hna, Hxy. apply orb_true_r.
      * intros i Hi. apply (sorts_in_range _ _ _ Hsorts) in Hi. rewrite Hlen in Hi.
        rewrite <- nargsort_non_nans. fold non_nan_idx.
        unfold cell_at at 2.
        rewrite (List.nth_indep _ nan_cell (cell_at 0 keys)) by now rewrite length_map.
        now rewrite (List.map_nth (fun j => cell_at j keys)).
    + apply ascending_all_na. rewrite forallb_map.
      apply (forallb_filter (fun i => isna (cell_at i keys))).
    + intros x y _ Hy. apply List.in_map_iff in Hy as (i & <- & Hi).
      apply List.filter_In in Hi as [_ Hi]. unfold na_last_le. now rewrite Hi.
Qed.

Lemma take_rows_permutation df indexer :
  indexer ≡ₚ List.seq 0 (length (rows df)) -> rows (take df indexer) ≡ₚ rows df.
Proof.
  intros Hperm. unfold take. cbn [rows].
  rewrite Hperm. now rewrite omap_lookup_seq.
Qed.

Lemma take_rows_keys (key : nat * list cell -> cell) rs indexer :
  (forall i, In i indexer -> i < length rs) ->
  List.map key (omap (fun i => rs !! i) indexer)
  = List.map (fun i => cell_at i (List.map key rs)) indexer.
Proof.
  induction indexer as [|i indexer IH]; intros Hrange; [reflexivity|].
  destruct (lookup_lt_is_Some_2 rs i) as [r Hr]; [apply Hrange; now left|].
  cbn. rewrite Hr. cbn. rewrite (cell_at_lookup key rs i r Hr). f_equal.
  apply IH. intros j Hj. apply Hrange. now right.
Qed.

Lemma field_column cols label j row :
  column_index label cols = Some j -> field cols label row = cell_at j row.
Proof. intros Hj. unfold field. now rewrite Hj. Qed.

(** What a run of [filtering_by_pident] does to the world, for the positions
    [nargsort] answers. *)
Lemma filtering_by_pident_run `{Externals} w infile p label text cols body indexer :
  fs w !! infile = Some text ->
  parse_header text = inr (cols, body) ->
  is_Some (column_index "pident" cols) ->
  numeric (List.map (field cols "pident") body) = true ->
  is_Some (column_index label cols) ->
  nargsort (keys_of cols label (List.filter (pident_at_least cols p) (range_index body)))
    = inr indexer ->
  filtering_by_pident infile p label w =
    (inr (S (S (length (heap w)))),
     mkWorld (fs w)
       (heap w ++ [mkDataFrame cols (range_index body);
                   mkDataFrame cols (List.filter (pident_at_least cols p) (range_index body))]
               ++ [take (mkDataFrame cols
                           (List.filter (pident_at_least cols p) (range_index body))) indexer])
       (trace w ++ [EvRead infile])).
Proof.
  intros Hfile Hparse [jp Hjp] Hnum [jl Hjl] Hidx.
  unfold filtering_by_pident.
  rewrite (bind_inr _ _ _ _ _ (read_csv_header_run w infile text cols body Hfile Hparse)).
  unfold bind at 1. unfold deref at 1. cbn [heap].
  rewrite list_lookup_middle by reflexivity.
  unfold bind at 1. unfold lift at 1.
  rewrite (getitem_range_index cols "pident" jp body Hjp).
  unfold bind at 1. unfold lift at 1. unfold series_ge.
  rewrite (List.map_ext (cell_at jp) (field cols "pident"))
    by (intros row; symmetry; now apply field_column).
  rewrite (series_cmp_numeric _ _ _ Hnum).
  unfold bind at 1. unfold alloc at 1. cbn [heap fs trace].
  unfold bind at 1. unfold deref at 1. cbn [heap].
  rewrite list_lookup_middle by reflexivity.
  unfold getitem_mask. cbn [columns rows].
  assert (Hsel : select (List.map (cmp_holds (fun f t => PrimFloat.leb t f) p)
                           (List.map (field cols "pident") body)) (range_index body)
                 = List.filter (pident_at_least cols p) (range_index body)).
  { rewrite <- (range_index_cells body) at 1. rewrite !List.map_map.
    exact (select_map_filter (pident_at_least cols p) (range_index body)). }
  rewrite !Hsel.
  unfold bind at 1. unfold lift at 1. unfold sort_values.
  rewrite (getitem_cells (mkDataFrame cols _) label jl Hjl). cbn [rbind].
  unfold cells. cbn [rows]. rewrite List.map_map.
  rewrite (List.map_ext (fun r : nat * list cell => cell_at jl (snd r))
             (fun r => field cols label (snd r)))
    by (intros r; symmetry; now apply field_column).
  fold (keys_of cols label (List.filter (pident_at_least cols p) (range_index body))).
  rewrite Hidx. cbn [rbind].
  unfold alloc. cbn [heap fs trace]. f_equal.
  - f_equal. rewrite !length_app. cbn [length]. lia.
  - f_equal. rewrite <- !List.app_assoc. reflexivity.
Qed.

Lemma lookup_third_new {A} (l : list A) a b c :
  (l ++ [a; b] ++ [c]) !! S (S (length l)) = Some c.
Proof.
  rewrite lookup_app_r by lia.
  replace (S (S (length l)) - length l) with 2 by lia. reflexivity.
Qed.

(** C4, as the code has it: on a readable table of translated hits with a
    numeric identity column and a sortable sort column, and with a sorting
    routine that sorts the keys it is given, [filtering_by_pident] returns a
    table with the columns of the header whose rows are exactly the rows with
    an identity of at least the threshold, arranged so that the keys of the
    sort column ascend, the missing keys last.  Nothing is said of the order
    of rows whose keys are equal. *)
Theorem filtering_by_pident_filters_and_sorts `{Externals} w infile p label text cols body :
  fs w !! infile = Some text ->
  parse_header text = inr (cols, body) ->
  is_Some (column_index "pident" cols) ->
  numeric (List.map (field cols "pident") body) = true ->
  is_Some (column_index label cols) ->
  sortable (dropna (keys_of cols label
                      (List.filter (pident_at_least cols p) (range_index body)))) = true ->
  sorts (dropna (keys_of cols label
                   (List.filter (pident_at_least cols p) (range_index body))))
    (argsort (dropna (keys_of cols label
                        (List.filter (pident_at_least cols p) (range_index body))))) = true ->
  exists l w' out,
    filtering_by_pident infile p label w = (inr l, w') /\
    heap w' !! l = Some out /\
    columns out = cols /\
    rows out ≡ₚ List.filter (pident_at_least cols p) (range_index body) /\
    ascending na_last_le (keys_of cols label (rows out)) = true.
Proof.
  intros Hfile Hparse Hpident Hnum Hlabel Hsortable Hsorts.
  set (kept := List.filter (pident_at_least cols p) (range_index body)) in *.
  destruct (nargsort_spec (keys_of cols label kept) Hsortable Hsorts)
    as (indexer & Hidx & Hperm & Hasc).
  unfold keys_of in Hperm at 1. rewrite length_map in Hperm.
  eexists _, _, (take (mkDataFrame cols kept) indexer).
  split; [apply (filtering_by_pident_run w infile p label text cols body indexer); assumption|].
  cbn [heap]. split; [apply lookup_third_new|].
  split; [reflexivity|]. split.
  - now apply (take_rows_permutation (mkDataFrame cols kept)).
  - unfold take. cbn [rows]. unfold keys_of at 1.
    rewrite (take_rows_keys (fun r => field cols label (snd r)) kept indexer); [exact Hasc|].
    intros i Hi. apply (Permutation_in _ Hperm) in Hi. apply List.in_seq in Hi. lia.
Qed.

Lemma filtering_by_pident_filters_and_sorts_sample :
  let E := Sample.tools in
  exists l w' out,
    @filtering_by_pident E "sample_tblastn.tsv" default_pident_threshold "saccver" Sample.world
      = (inr l, w') /\
    heap w' !! l = Some out /\
    columns out = Sample.tblastn_columns /\
    rows out ≡ₚ List.filter (pident_at_least Sample.tblastn_columns default_pident_threshold)
                  (range_index Sample.tblastn_body) /\
    ascending na_last_le (keys_of Sample.tblastn_columns "saccver" (rows out)) = true.
Proof.
  intros E.
  apply (@filtering_by_pident_filters_and_sorts E Sample.world "sample_tblastn.tsv"
           default_pident_threshold "saccver" "tblastn" Sample.tblastn_columns
           Sample.tblastn_body).
  - vm_compute. reflexivity.
  - reflexivity.
  - vm_compute. eauto.
  - vm_compute. reflexivity.
  - vm_compute. eauto.
  - vm_compute. reflexivity.
  - vm_compute. reflexivity.
Defined.

(** C4 as stated fails: [sort_values] is called without a [kind], so the
    default routine is used, which does not keep ties in place.  On the table
    of eighteen hits on one accession the quicksort of the sample sorts the
    keys, and the rows come out under the labels 0, 15, 14, ..., 1, 16, 17:
    the second and third rows are tied and stand in the reverse of their
    order in the input. *)
Lemma filtering_by_pident_moves_ties :
  let E := Sample.tools in
  let kept := List.filter (pident_at_least Sample.tblastn_columns default_pident_threshold)
                (range_index Sample.tied_body) in
  let keys := dropna (keys_of Sample.tblastn_columns "saccver" kept) in
  sorts keys (Sample.quicksort_argsort keys) = true /\
  exists l w' out,
    @filtering_by_pident E "tied_tblastn.tsv" default_pident_threshold "saccver" Sample.world
      = (inr l, w') /\
    heap w' !! l = Some out /\
    rows out ≡ₚ kept /\
    ascending na_last_le (keys_of Sample.tblastn_columns "saccver" (rows out)) = true /\
    List.map fst (rows out) = [0; 15; 14; 13; 12; 11; 10; 9; 8; 7; 6; 5; 4; 3; 2; 1; 16; 17] /\
    ~ keeps_ties_in_order Sample.tblastn_columns "saccver" (rows out).
Proof.
  intros E kept keys.
  assert (Hsorts : sorts keys (Sample.quicksort_argsort keys) = true)
    by (vm_compute; reflexivity).
  split; [exact Hsorts|].
  eexists _, _, _. split.
  { apply (@filtering_by_pident_run E Sample.world "tied_tblastn.tsv"
             default_pident_threshold "saccver" "tied" Sample.tblastn_columns
             Sample.tied_body
             [0; 15; 14; 13; 12; 11; 10; 9; 8; 7; 6; 5; 4; 3; 2; 1; 16; 17]);
      vm_compute; eauto. }
  cbn [heap]. split; [apply lookup_third_new|].
  split; [apply (take_rows_permutation (mkDataFrame Sample.tblastn_columns kept));
          apply (sorts_permutation keys); vm_compute; reflexivity|].
  split; [vm_compute; reflexivity|]. split; [vm_compute; reflexivity|].
  intros Hstable.
  assert (Hlt : 15 < 14).
  { apply (Hstable 1 2
             (15, [CStr "seq15"; CStr "NZ_B"; CFloat 99; CFloat Sample.e30])
             (14, [CStr "seq14"; CStr "NZ_B"; CFloat 99; CFloat Sample.e30]));
      [lia| | |]; vm_compute; reflexivity. }
  lia.
Qed.

(** ** argparse *)

Lemma parse_known_keeps `{Externals} argv ns args a :
  parse_known argv ns = inr args -> is_Some (ns !! a) -> is_Some (args !! a).
Proof.
  revert ns. induction argv as [|[flag v] argv IH]; intros ns Hparse Ha;
    cbn [parse_known] in Hparse.
  - now inversion Hparse; subst.
  - destruct (existsb (String.eqb flag) _); [discriminate|].
    destruct (List.find (has_flag flag) _) as [d|]; [|discriminate].
    destruct (accepts (type_ d) v); [|discriminate].
    apply (IH _ Hparse). rewrite lookup_insert_is_Some. destruct (decide (dest d = a)); auto.
Qed.

(** Only declared destinations enter the namespace. *)
Lemma parse_known_undeclared `{Externals} argv ns args a :
  ~ In a declared_dests ->
  parse_known argv ns = inr args -> ns !! a = None -> args !! a = None.
Proof.
  intros Hnot. revert ns.
  induction argv as [|[flag v] argv IH]; intros ns Hparse Ha; cbn [parse_known] in Hparse.
  - now inversion Hparse; subst.
  - destruct (existsb (String.eqb flag) _); [discriminate|].
    destruct (List.find (has_flag flag) _) as [d|] eqn:Hfind; [|discriminate].
    destruct (accepts (type_ d) v); [|discriminate].
    apply (IH _ Hparse). rewrite lookup_insert_ne; [exact Ha|].
    apply List.find_some in Hfind as [Hd _]. intros Heq. apply Hnot. rewrite <- Heq.
    clear -Hd. cbn in Hd.
    repeat (destruct Hd as [<-|Hd]; [cbn; tauto|]). contradiction.
Qed.

Lemma default_namespace_declared `{Externals} a :
  In a declared_dests -> is_Some (default_namespace !! a).
Proof.
  intros Ha. cbn in Ha.
  repeat (destruct Ha as [<-|Ha]; [vm_compute; eauto|]). contradiction.
Qed.

Lemma default_namespace_undeclared `{Externals} a :
  ~ In a declared_dests -> default_namespace !! a = None.
Proof.
  intros Hnot. unfold default_namespace. apply not_elem_of_list_to_map_1.
  intros Hin. apply Hnot. cbn in Hin.
  rewrite !elem_of_cons in Hin. cbn.
  repeat (destruct Hin as [->|Hin]; [tauto|]). now apply elem_of_nil in Hin.
Qed.

Lemma getattr_declared `{Externals} argv args a :
  parse_args argv = inr args -> In a declared_dests ->
  getattr args a = inr (attr args a).
Proof.
  intros Hparse Ha. unfold getattr, attr.
  destruct (parse_known_keeps argv _ args a Hparse (default_namespace_declared a Ha))
    as [v Hv].
  now rewrite Hv.
Qed.

Lemma getattr_undeclared `{Externals} argv args a :
  parse_args argv = inr args -> ~ In a declared_dests ->
  getattr args a = inl (AttributeError a).
Proof.
  intros Hparse Ha. unfold getattr.
  now rewrite (parse_known_undeclared argv _ args a Ha Hparse
                 (default_namespace_undeclared a Ha)).
Qed.

Lemma blastdbcmd_binary_path_undeclared : ~ In "blastdbcmd_binary_path" declared_dests.
Proof. cbn. intros Hin. repeat (destruct Hin as [Hin|Hin]; [discriminate|]). exact Hin. Qed.

Lemma declared_dests_eq `{Externals} : List.map dest declared_arguments = declared_dests.
Proof. reflexivity. Qed.

(** ** The events of a run *)

Lemma emits_silent {A} (m : M A) :
  (forall w, trace (snd (m w)) = trace w) -> emits m [] [].
Proof.
  intros Hm w. exists []. rewrite Hm, List.app_nil_r. repeat split; auto.
Qed.

Lemma emits_one {A} (m : M A) ev :
  (forall w, trace (snd (m w)) = trace w ++ [ev]) -> emits m [ev] [ev].
Proof. intros Hm w. exists [ev]. rewrite Hm. repeat split; auto. Qed.

Lemma emits_ret {A} (a : A) : emits (ret a) [] [].
Proof. now apply emits_silent. Qed.

Lemma emits_lift {A} (r : exn + A) : emits (lift r) [] [].
Proof. now apply emits_silent. Qed.

Lemma emits_alloc df : emits (alloc df) [] [].
Proof. now apply emits_silent. Qed.

Lemma emits_deref l : emits (deref l) [] [].
Proof. apply emits_silent. intros w. unfold deref. now destruct (heap w !! l). Qed.

Lemma emits_read_file path : emits (read_file path) [] [].
Proof. apply emits_silent. intros w. unfold read_file. now destruct (fs w !! path). Qed.

Lemma emits_write_file path content : emits (write_file path content) [] [].
Proof. now apply emits_silent. Qed.

Lemma emits_log ev : emits (log ev) [ev] [ev].
Proof. now apply emits_one. Qed.

Lemma emits_invoke `{Externals} ev : emits (invoke ev) [ev] [ev].
Proof. now apply emits_one. Qed.

Lemma emits_bind {A B} (m : M A) (k : A -> M B) must must' p1 p2 plan :
  emits m must p1 ->
  (forall a w w', m w = (inr a, w') -> emits (k a) must' p2) ->
  plan = p1 ++ p2 ->
  emits (bind m k) must plan.
Proof.
  intros Hm Hk -> w.
  destruct (Hm w) as (e1 & Ht1 & Hmust & Hpre1 & Hall1).
  unfold bind. destruct (m w) as [[e|a] w1] eqn:Hmw; cbn [fst snd] in *.
  - exists e1. split; [exact Ht1|]. split; [exact Hmust|].
    split; [now apply prefix_app_r|]. intros a Ha. discriminate.
  - rewrite (Hall1 a eq_refl) in *.
    destruct (Hk a w w1 Hmw w1) as (e2 & Ht2 & _ & Hpre2 & Hall2).
    exists (p1 ++ e2). split; [now rewrite Ht2, Ht1, List.app_assoc|].
    split; [now apply prefix_app_r|]. split; [now apply prefix_app|].
    intros b Hb. now rewrite (Hall2 b Hb).
Qed.

Lemma emits_bind_lift_inr {A B} (v : A) (k : A -> M B) must plan :
  emits (k v) must plan -> emits (bind (lift (inr v)) k) must plan.
Proof. intros Hk. exact Hk. Qed.

Lemma emits_bind_ret {A B} (v : A) (k : A -> M B) must plan :
  emits (k v) must plan -> emits (bind (ret v) k) must plan.
Proof. intros Hk. exact Hk. Qed.

Lemma emits_remove_duplicates `{Externals} hits : emits (remove_duplicates hits) [] [].
Proof. apply emits_silent. intros w. now rewrite remove_duplicates_same_world. Qed.

Ltac emits_go :=
  lazymatch goal with
  | |- emits (bind (lift (inr _)) _) _ _ => apply emits_bind_lift_inr; cbv beta; emits_go
  | |- emits (bind (ret _) _) _ _ => apply emits_bind_ret; cbv beta; emits_go
  | |- emits (bind _ _) _ _ =>
      eapply emits_bind; [emits_go | intros ? ? ? ?; emits_go | reflexivity]
  | |- _ =>
      first [ apply emits_ret | apply emits_lift | apply emits_alloc
            | apply emits_deref | apply emits_read_file | apply emits_write_file
            | apply emits_log | apply emits_invoke | apply emits_remove_duplicates
            | eassumption ]
  end.

Lemma emits_open_w path : emits (open_w path) [EvWrite path] [EvWrite path].
Proof. unfold open_w. emits_go. Qed.

Lemma emits_filtering_m8file `{Externals} file t :
  emits (filtering_m8file file t) [EvRead file] [EvRead file].
Proof. unfold filtering_m8file, read_csv_names. emits_go. Qed.

Lemma emits_filtering_by_pident `{Externals} infile p label :
  emits (filtering_by_pident infile p label) [EvRead infile] [EvRead infile].
Proof. unfold filtering_by_pident, read_csv_header. emits_go. Qed.

(** ** main *)

Ltac rewrite_declared argv args Hparse :=
  repeat match goal with
    | |- context [getattr args ?a] =>
        rewrite (getattr_declared argv args a Hparse) by (cbn; tauto)
    end.

Lemma emits_translated_search `{Externals} argv args input m8file :
  parse_args argv = inr args ->
  emits (translated_search args input m8file) [EvRead m8file]
    (later_stages args input m8file).
Proof.
  intros Hparse. unfold translated_search. cbv zeta.
  rewrite_declared argv args Hparse.
  eapply emits_bind; [apply emits_filtering_m8file| |reflexivity]. intros hits _ _ _.
  eapply emits_bind; [apply emits_open_w| |reflexivity]. intros _ _ _ _.
  eapply emits_bind; [apply emits_remove_duplicates| |reflexivity]. intros records _ _ _.
  eapply emits_bind; [apply emits_write_file| |reflexivity]. intros _ _ _ _.
  do 5 (apply emits_bind_lift_inr; cbv beta).
  eapply emits_bind; [apply emits_invoke| |reflexivity]. intros _ _ _ _.
  apply emits_filtering_by_pident.
Qed.

(** The table the entry point hands on. *)
Lemma structural_search_returns `{Externals} args input w a w' :
  structural_search args input w = (inr a, w') ->
  a = if String.eqb (path_suffix input) ".pdb" then path_stem input +:+ ".m8" else input.
Proof.
  unfold structural_search.
  destruct (String.eqb (path_suffix input) ".pdb").
  - intros Hrun. repeat (apply bind_inv in Hrun as (? & ? & _ & Hrun)).
    unfold ret in Hrun. now inversion Hrun.
  - destruct (String.eqb (path_suffix input) ".m8"); intros Hrun.
    + unfold ret in Hrun. now inversion Hrun.
    + discriminate.
Qed.

Lemma extract_final_records_raises `{Externals} argv args filtered_tblastn w :
  parse_args argv = inr args ->
  extract_final_records args filtered_tblastn w
  = (inl (AttributeError "blastdbcmd_binary_path"), w).
Proof.
  intros Hparse. unfold extract_final_records.
  now rewrite (getattr_undeclared argv args _ Hparse blastdbcmd_binary_path_undeclared).
Qed.

(** A run of the stages before the extraction that returns has parsed its
    command line into the namespace it returns. *)
Lemma search_stages_args `{Externals} argv w s w1 :
  search_stages argv w = (inr s, w1) -> parse_args argv = inr (fst s).
Proof.
  unfold search_stages. intros Hrun.
  apply bind_inv in Hrun as (args & w2 & Hargs & Hrun).
  unfold lift in Hargs. inversion Hargs as [[Hparse Hw]]. rewrite Hparse.
  repeat (apply bind_inv in Hrun as (? & ? & _ & Hrun)).
  unfold ret in Hrun. now inversion Hrun.
Qed.

(** Once the command line is read, the binaries are found and the input is
    a path, [main] is at its entry point. *)
Lemma main_at_entry `{Externals} argv w args input :
  parse_args argv = inr args ->
  attr args "input" = VStr input ->
  check_binaries_available (attr args "parallel_binary_path")
    (attr args "tblastn_binary_path") (attr args "foldseek_binary_path") w = (inr tt, w) ->
  main argv w =
    bind (bind (structural_search args input)
            (fun foldseek_m8file =>
               bind (translated_search args input foldseek_m8file)
                 (fun filtered_tblastn => ret (args, filtered_tblastn))))
      (fun s => extract_final_records (fst s) (snd s)) w.
Proof.
  intros Hparse Hinput Hcheck. unfold main, search_stages.
  unfold bind at 1. symmetry. unfold bind at 1. symmetry. f_equal.
  rewrite Hparse.
  change (bind (lift (inr args)) ?k w) with (k args w). cbv beta.
  rewrite_declared argv args Hparse.
  do 3 (change (bind (lift (inr ?v)) ?k w) with (k v w); cbv beta).
  rewrite (bind_inr _ _ _ _ _ Hcheck).
  change (bind (lift (inr ?v)) ?k w) with (k v w). cbv beta.
  rewrite Hinput. reflexivity.
Qed.

Lemma emits_from_entry `{Externals} argv args input must entry :
  parse_args argv = inr args ->
  emits (structural_search args input) must entry ->
  emits (bind (bind (structural_search args input)
                 (fun foldseek_m8file =>
                    bind (translated_search args input foldseek_m8file)
                      (fun filtered_tblastn => ret (args, filtered_tblastn))))
           (fun s => extract_final_records (fst s) (snd s)))
    must
    (entry ++ later_stages args input
                (if String.eqb (path_suffix input) ".pdb"
                 then path_stem input +:+ ".m8" else input)).
Proof.
  intros Hparse Hentry.
  eapply emits_bind; [| |symmetry; apply List.app_nil_r].
  - eapply emits_bind; [exact Hentry| |reflexivity].
    intros m8 w0 w1 Hm8. apply structural_search_returns in Hm8 as ->.
    eapply emits_bind; [now apply (emits_translated_search argv)| |symmetry; apply List.app_nil_r].
    intros ft _ _ _. apply emits_ret.
  - intros s w0 w1 Hs.
    apply bind_inv in Hs as (m8 & w2 & _ & Hs).
    apply bind_inv in Hs as (ft & w3 & _ & Hs).
    unfold ret in Hs. inversion Hs; subst s w3. cbn [fst snd].
    apply emits_silent. intros w4.
    now rewrite (extract_final_records_raises argv args ft w4 Hparse).
Qed.

(** C5: the entry point follows the suffix of the input, and the files are
    named after its stem.  With the suffix [.pdb] the first thing the driver
    does is to call the structural search with the output [<stem>.m8], and
    what follows starts by reading that file; with the suffix [.m8] the
    first thing it does is to read the input itself; then come, as far as
    the run gets, the writing of [<stem>_nodup.fasta], the translated search
    from it into [<stem>_tblastn.tsv] and the reading of that file.  With
    any other suffix [ValueError] is raised in the world as it was: nothing
    has been called. *)
Theorem main_entry_point_and_file_names `{Externals} argv w args input :
  parse_args argv = inr args ->
  attr args "input" = VStr input ->
  check_binaries_available (attr args "parallel_binary_path")
    (attr args "tblastn_binary_path") (attr args "foldseek_binary_path") w = (inr tt, w) ->
  if String.eqb (path_suffix input) ".pdb" then
    exists evs,
      trace (snd (main argv w)) = trace w ++ foldseek_call args input :: evs /\
      evs `prefix_of` later_stages args input (path_stem input +:+ ".m8")
  else if String.eqb (path_suffix input) ".m8" then
    exists evs,
      trace (snd (main argv w)) = trace w ++ EvRead input :: evs /\
      EvRead input :: evs `prefix_of` later_stages args input input
  else
    main argv w
    = (inl (ValueError "Invalid input file suffix: the suffix must be .pdb or .m8."), w).
Proof.
  intros Hparse Hinput Hcheck.
  rewrite (main_at_entry argv w args input Hparse Hinput Hcheck).
  destruct (String.eqb (path_suffix input) ".pdb") eqn:Hpdb.
  - assert (Hentry : emits (structural_search args input)
                       [foldseek_call args input] [foldseek_call args input]).
    { unfold structural_search. rewrite Hpdb. rewrite_declared argv args Hparse.
      do 3 (apply emits_bind_lift_inr; cbv beta).
      eapply emits_bind; [apply emits_invoke| |reflexivity]. intros _ _ _ _. apply emits_ret. }
    destruct (emits_from_entry argv args input _ _ Hparse Hentry w)
      as (evs & Htrace & Hmust & Hplan & _).
    rewrite Hpdb in Hplan. destruct Hmust as [rest ->]. cbn [app] in *.
    exists rest. split; [exact Htrace|]. now apply prefix_cons_inv_2 in Hplan.
  - destruct (String.eqb (path_suffix input) ".m8") eqn:Hm8.
    + assert (Hentry : emits (structural_search args input) [] []).
      { unfold structural_search. rewrite Hpdb, Hm8. apply emits_ret. }
      assert (Hfirst : emits (bind (bind (structural_search args input)
                 (fun foldseek_m8file =>
                    bind (translated_search args input foldseek_m8file)
                      (fun filtered_tblastn => ret (args, filtered_tblastn))))
                 (fun s => extract_final_records (fst s) (snd s)))
                [EvRead input] (later_stages args input input)).
      { eapply emits_bind; [| |symmetry; apply List.app_nil_r].
        - unfold structural_search. rewrite Hpdb, Hm8. apply emits_bind_ret. cbv beta.
          eapply emits_bind;
            [now apply (emits_translated_search argv)| |symmetry; apply List.app_nil_r].
          intros ft _ _ _. apply emits_ret.
        - intros s w0 w1 Hs.
          apply bind_inv in Hs as (m8 & w2 & _ & Hs).
          apply bind_inv in Hs as (ft & w3 & _ & Hs).
          unfold ret in Hs. inversion Hs; subst s w3. cbn [fst snd].
          apply emits_silent. intros w4.
          now rewrite (extract_final_records_raises argv args ft w4 Hparse). }
      destruct (Hfirst w) as (evs & Htrace & Hmust & Hplan & _).
      destruct Hmust as [rest ->]. cbn [app] in *.
      exists rest. split; [exact Htrace|exact Hplan].
    + unfold structural_search. rewrite Hpdb, Hm8. reflexivity.
Qed.

Lemma main_entry_point_and_file_names_sample :
  let E := Sample.tools in
  let argv := [("-i", VStr "sample.pdb"); ("-o", VStr "plasmids.fasta")] in
  let args := match @parse_args E argv with inr args => args | inl _ => ∅ end in
  if String.eqb (path_suffix "sample.pdb") ".pdb" then
    exists evs,
      trace (snd (@main E argv Sample.world))
      = trace Sample.world ++ foldseek_call args "sample.pdb" :: evs /\
      evs `prefix_of` later_stages args "sample.pdb" (path_stem "sample.pdb" +:+ ".m8")
  else if String.eqb (path_suffix "sample.pdb") ".m8" then
    exists evs,
      trace (snd (@main E argv Sample.world))
      = trace Sample.world ++ EvRead "sample.pdb" :: evs /\
      EvRead "sample.pdb" :: evs `prefix_of` later_stages args "sample.pdb" "sample.pdb"
  else
    @main E argv Sample.world
    = (inl (ValueError "Invalid input file suffix: the suffix must be .pdb or .m8."),
       Sample.world).
Proof.
  intros E argv args.
  apply (@main_entry_point_and_file_names E argv Sample.world args "sample.pdb").
  - vm_compute. reflexivity.
  - vm_compute. reflexivity.
  - vm_compute. reflexivity.
Defined.

(** The scenarios of the specification: [sample.pdb] goes through the
    structural search into [sample.m8]; [sample.m8] is read directly; a
    [.txt] input is refused with nothing called. *)
Example main_scenarios :
  let E := Sample.tools in
  List.firstn 2 (trace (snd (@main E [("-i", VStr "sample.pdb")] Sample.world)))
  = [EvFoldseek "sample.pdb" (VStr "/usr/bin/foldseek") (VStr "/db/pdb") "sample.m8" (VInt 4);
     EvRead "sample.m8"] /\
  List.firstn 1 (trace (snd (@main E [("-i", VStr "sample.m8")] Sample.world)))
  = [EvRead "sample.m8"] /\
  @main E [("-i", VStr "notes.txt")] Sample.world
  = (inl (ValueError "Invalid input file suffix: the suffix must be .pdb or .m8."),
     Sample.world).
Proof. repeat split; vm_compute; reflexivity. Qed.

(** C9: the namespace has no attribute [blastdbcmd_binary_path], since no
    declared option has that destination; so a run that has gone through
    every stage before the extraction ends there with [AttributeError], in
    the world those stages left: [run_blastdbcmd] is not called. *)
Theorem main_fails_at_extract_final_records `{Externals} argv w s w1 :
  search_stages argv w = (inr s, w1) ->
  ~ In "blastdbcmd_binary_path" (List.map dest declared_arguments) /\
  getattr (fst s) "blastdbcmd_binary_path" = inl (AttributeError "blastdbcmd_binary_path") /\
  main argv w = (inl (AttributeError "blastdbcmd_binary_path"), w1).
Proof.
  intros Hrun. pose proof (search_stages_args argv w s w1 Hrun) as Hparse.
  split; [rewrite declared_dests_eq; apply blastdbcmd_binary_path_undeclared|].
  split.
  - apply (getattr_undeclared argv _ _ Hparse blastdbcmd_binary_path_undeclared).
  - unfold main. rewrite (bind_inr _ _ _ _ _ Hrun).
    apply (extract_final_records_raises argv _ _ _ Hparse).
Qed.

Lemma main_fails_at_extract_final_records_sample :
  let E := Sample.tools in
  let argv := [("-i", VStr "sample.pdb"); ("-o", VStr "plasmids.fasta")] in
  let run := @search_stages E argv Sample.world in
  let s := match fst run with inr s => s | inl _ => (∅, 0) end in
  ~ In "blastdbcmd_binary_path" (List.map dest (@declared_arguments E)) /\
  getattr (fst s) "blastdbcmd_binary_path" = inl (AttributeError "blastdbcmd_binary_path") /\
  @main E argv Sample.world = (inl (AttributeError "blastdbcmd_binary_path"), snd run).
Proof.
  intros E argv run s.
  apply (@main_fails_at_extract_final_records E argv Sample.world s (snd run)).
  vm_compute. reflexivity.
Defined.

(** * Further properties *)

(** ** The check of the binaries *)

Lemma check_binaries_available_same_world a b c w :
  snd (check_binaries_available a b c w) = w.
Proof.
  unfold check_binaries_available, bind, lift, exists_, raise, ret.
  destruct (Path a) as [e|p]; [reflexivity|]. cbn [fst snd].
  destruct (bool_decide (is_Some (fs w !! p))); cbn; [|reflexivity].
  destruct (Path b) as [e|t]; [reflexivity|]. cbn [fst snd].
  destruct (bool_decide (is_Some (fs w !! t))); cbn; [|reflexivity].
  destruct (Path c) as [e|f]; [reflexivity|]. cbn [fst snd].
  destruct (bool_decide (is_Some (fs w !! f))); reflexivity.
Qed.

(** X1: [check_binaries_available] never changes the world, and on three
    strings it returns exactly when the three paths exist. *)
Theorem check_binaries_available_passes_iff w p t f :
  (forall a b c, snd (check_binaries_available a b c w) = w) /\
  (check_binaries_available (VStr p) (VStr t) (VStr f) w = (inr tt, w) <->
   is_Some (fs w !! p) /\ is_Some (fs w !! t) /\ is_Some (fs w !! f)).
Proof.
  split; [intros a b c; apply check_binaries_available_same_world|].
  unfold check_binaries_available, bind, lift, exists_, raise, ret. cbn [Path fst snd].
  destruct (fs w !! p) as [xp|] eqn:Hp; cbn.
  2: { split; [discriminate|]. intros [[x Hx] _]. discriminate. }
  destruct (fs w !! t) as [xt|] eqn:Ht; cbn.
  2: { split; [discriminate|]. intros (_ & [x Hx] & _). discriminate. }
  destruct (fs w !! f) as [xf|] eqn:Hf; cbn.
  2: { split; [discriminate|]. intros (_ & _ & [x Hx]). discriminate. }
  split; eauto.
Qed.

(** A path that is [None] is refused by [Path] before anything is looked up
    on the disk. *)
Lemma check_binaries_available_none w a b c :
  a = VNone \/
  (exists p, a = VStr p /\ is_Some (fs w !! p) /\ b = VNone) \/
  (exists p t, a = VStr p /\ is_Some (fs w !! p) /\ b = VStr t /\ is_Some (fs w !! t)
               /\ c = VNone) ->
  check_binaries_available a b c w
  = (inl (TypeError "expected str, bytes or os.PathLike object"), w).
Proof.
  unfold check_binaries_available, bind, lift, exists_, raise, ret.
  intros [->|[(p & -> & [xp Hp] & ->)|(p & t & -> & [xp Hp] & -> & [xt Ht] & ->)]];
    cbn [Path fst snd]; [reflexivity| |].
  - rewrite Hp. reflexivity.
  - rewrite Hp. cbn. rewrite Ht. reflexivity.
Qed.

(** ** How main ends before the entry point *)

Lemma main_check_raises `{Externals} argv w args e w' :
  parse_args argv = inr args ->
  check_binaries_available (attr args "parallel_binary_path")
    (attr args "tblastn_binary_path") (attr args "foldseek_binary_path") w = (inl e, w') ->
  main argv w = (inl e, w').
Proof.
  intros Hparse Hcheck. unfold main, search_stages. unfold bind at 1.
  rewrite Hparse.
  change (bind (lift (inr args)) ?k w) with (k args w). cbv beta.
  rewrite_declared argv args Hparse.
  do 3 (change (bind (lift (inr ?v)) ?k w) with (k v w); cbv beta).
  now rewrite (bind_inl _ _ _ _ _ Hcheck).
Qed.

(** X2: with a binary missing from the disk [main] ends with
    [FileNotFoundError] in the world as it was: nothing has been read,
    written or called. *)
Theorem main_stops_on_missing_binary `{Externals} argv w args p t f :
  parse_args argv = inr args ->
  attr args "parallel_binary_path" = VStr p ->
  attr args "tblastn_binary_path" = VStr t ->
  attr args "foldseek_binary_path" = VStr f ->
  fs w !! p = None \/ fs w !! t = None \/ fs w !! f = None ->
  exists msg, main argv w = (inl (FileNotFoundError msg), w).
Proof.
  intros Hparse Hp Ht Hf Hmiss.
  destruct (check_binaries_available_missing w p t f Hmiss) as [msg Hcheck].
  exists msg. apply (main_check_raises argv w args _ w Hparse).
  now rewrite Hp, Ht, Hf.
Qed.

Lemma main_stops_on_missing_binary_sample :
  exists msg,
    @main Sample.tools [("--foldseek-binary-path", VStr "/opt/foldseek/bin/foldseek");
                        ("-i", VStr "sample.pdb")] Sample.world
    = (inl (FileNotFoundError msg), Sample.world).
Proof.
  apply (@main_stops_on_missing_binary Sample.tools _ Sample.world
           (match @parse_args Sample.tools
                    [("--foldseek-binary-path", VStr "/opt/foldseek/bin/foldseek");
                     ("-i", VStr "sample.pdb")] with
            | inr args => args
            | inl _ => ∅
            end)
           "/usr/bin/parallel" "/usr/bin/tblastn" "/opt/foldseek/bin/foldseek").
  - vm_compute. reflexivity.
  - vm_compute. reflexivity.
  - vm_compute. reflexivity.
  - vm_compute. reflexivity.
  - right. right. vm_compute. reflexivity.
Defined.

(** X3: a binary that is neither given on the command line nor found by
    [shutil.which] has the path [None]; [main] then ends with the [TypeError]
    of [Path(None)], not with the message of the check, in the world as it
    was. *)
Theorem main_stops_on_binary_off_path `{Externals} argv w args :
  parse_args argv = inr args ->
  attr args "parallel_binary_path" = VNone \/
  (exists p, attr args "parallel_binary_path" = VStr p /\ is_Some (fs w !! p) /\
             attr args "tblastn_binary_path" = VNone) \/
  (exists p t, attr args "parallel_binary_path" = VStr p /\ is_Some (fs w !! p) /\
               attr args "tblastn_binary_path" = VStr t /\ is_Some (fs w !! t) /\
               attr args "foldseek_binary_path" = VNone) ->
  main argv w = (inl (TypeError "expected str, bytes or os.PathLike object"), w).
Proof.
  intros Hparse Hnone.
  apply (main_check_raises argv w args _ w Hparse).
  now apply check_binaries_available_none.
Qed.

Lemma main_stops_on_binary_off_path_sample :
  @main tools_off_path [("-i", VStr "sample.pdb")] Sample.world
  = (inl (TypeError "expected str, bytes or os.PathLike object"), Sample.world).
Proof.
  apply (@main_stops_on_binary_off_path tools_off_path _ Sample.world
           (match @parse_args tools_off_path [("-i", VStr "sample.pdb")] with
            | inr args => args
            | inl _ => ∅
            end)).
  - vm_compute. reflexivity.
  - left. vm_compute. reflexivity.
Defined.

(** X4: without [--input] the path of the input is [None]; once the binaries
    are found [main] ends with the [TypeError] of [Path(None)], in the world
    as it was: no stage has run. *)
Theorem main_stops_without_input `{Externals} argv w args :
  parse_args argv = inr args ->
  attr args "input" = VNone ->
  check_binaries_available (attr args "parallel_binary_path")
    (attr args "tblastn_binary_path") (attr args "foldseek_binary_path") w = (inr tt, w) ->
  main argv w = (inl (TypeError "expected str, bytes or os.PathLike object"), w).
Proof.
  intros Hparse Hinput Hcheck. unfold main, search_stages. unfold bind at 1.
  rewrite Hparse.
  change (bind (lift (inr args)) ?k w) with (k args w). cbv beta.
  rewrite_declared argv args Hparse.
  do 3 (change (bind (lift (inr ?v)) ?k w) with (k v w); cbv beta).
  rewrite (bind_inr _ _ _ _ _ Hcheck).
  change (bind (lift (inr ?v)) ?k w) with (k v w). cbv beta.
  rewrite Hinput. reflexivity.
Qed.

Lemma main_stops_without_input_sample :
  @main Sample.tools [("-o", VStr "plasmids.fasta")] Sample.world
  = (inl (TypeError "expected str, bytes or os.PathLike object"), Sample.world).
Proof.
  apply (@main_stops_without_input Sample.tools _ Sample.world
           (match @parse_args Sample.tools [("-o", VStr "plasmids.fasta")] with
            | inr args => args
            | inl _ => ∅
            end)).
  - vm_compute. reflexivity.
  - vm_compute. reflexivity.
  - vm_compute. reflexivity.
Defined.

(** ** Errors of the two filters *)


(** X5: on a path that holds no file both filters end with
    [FileNotFoundError] on that path; the read has been attempted, and no
    table has been made. *)
Theorem filters_raise_on_missing_file `{Externals} w file t label :
  fs w !! file = None ->
  filtering_m8file file t w
  = (inl (FileNotFoundError file), mkWorld (fs w) (heap w) (trace w ++ [EvRead file])) /\
  filtering_by_pident file t label w
  = (inl (FileNotFoundError file), mkWorld (fs w) (heap w) (trace w ++ [EvRead file])).
Proof.
  intros Hfile.
  split; unfold filtering_m8file, filtering_by_pident, read_csv_names, read_csv_header,
    bind, log, read_file; cbn [fs heap trace fst snd]; now rewrite Hfile.
Qed.

Lemma filters_raise_on_missing_file_sample :
  @filtering_m8file Sample.tools "absent.m8" default_eval_threshold Sample.world
  = (inl (FileNotFoundError "absent.m8"),
     mkWorld (fs Sample.world) (heap Sample.world) (trace Sample.world ++ [EvRead "absent.m8"])) /\
  @filtering_by_pident Sample.tools "absent.m8" default_eval_threshold "saccver" Sample.world
  = (inl (FileNotFoundError "absent.m8"),
     mkWorld (fs Sample.world) (heap Sample.world) (trace Sample.world ++ [EvRead "absent.m8"])).
Proof.
  apply (@filters_raise_on_missing_file Sample.tools Sample.world "absent.m8"
           default_eval_threshold "saccver").
  vm_compute. reflexivity.
Defined.



(** X7: when the header of the table of translated hits has no column
    [pident], [filtering_by_pident] ends with [KeyError] on [pident],
    whatever the sort column; the table read is the only new table. *)
Theorem filtering_by_pident_needs_pident `{Externals} w infile p label text cols body :
  fs w !! infile = Some text ->
  parse_header text = inr (cols, body) ->
  column_index "pident" cols = None ->
  filtering_by_pident infile p label w
  = (inl (KeyError "pident"),
     mkWorld (fs w) (heap w ++ [mkDataFrame cols (range_index body)])
       (trace w ++ [EvRead infile])).
Proof.
  intros Hfile Hparse Habsent. unfold filtering_by_pident.
  rewrite (bind_inr _ _ _ _ _ (read_csv_header_run w infile text cols body Hfile Hparse)).
  unfold bind at 1. unfold deref at 1. cbn [heap].
  rewrite list_lookup_middle by reflexivity.
  unfold bind at 1. unfold lift at 1.
  now rewrite (getitem_absent (mkDataFrame cols (range_index body)) "pident" Habsent).
Qed.

Lemma filtering_by_pident_needs_pident_sample :
  let E := tools_reading ["qaccver"; "saccver"; "evalue"]
             [[CStr "seq1"; CStr "NZ_A"; CFloat Sample.e30]] in
  @filtering_by_pident E "sample_tblastn.tsv" default_pident_threshold "saccver" Sample.world
  = (inl (KeyError "pident"),
     mkWorld (fs Sample.world)
       (heap Sample.world ++
        [mkDataFrame ["qaccver"; "saccver"; "evalue"]
           (range_index [[CStr "seq1"; CStr "NZ_A"; CFloat Sample.e30]])])
       (trace Sample.world ++ [EvRead "sample_tblastn.tsv"])).
Proof.
  intros E.
  apply (@filtering_by_pident_needs_pident E Sample.world "sample_tblastn.tsv"
           default_pident_threshold "saccver" "tblastn").
  - vm_compute. reflexivity.
  - reflexivity.
  - reflexivity.
Defined.

(** ** More on remove_duplicates *)

Lemma row_getitem_absent cols row label :
  column_index label cols = None -> row_getitem cols row label = inl (KeyError label).
Proof. intros Hj. unfold row_getitem. now rewrite Hj. Qed.

(** X8: the columns are only looked up while a row is visited.  A table
    without rows gives no record whatever its columns; a table with a row and
    without the column [tseq] gives [KeyError] on [tseq]; one with [tseq] and
    without [theader] gives [KeyError] on [theader].  The world is as it
    was. *)
Theorem remove_duplicates_looks_up_columns_per_row `{Externals} w hits df :
  heap w !! hits = Some df ->
  (rows df = [] -> remove_duplicates hits w = (inr [], w)) /\
  (rows df <> [] -> column_index "tseq" (columns df) = None ->
   remove_duplicates hits w = (inl (KeyError "tseq"), w)) /\
  (rows df <> [] -> is_Some (column_index "tseq" (columns df)) ->
   column_index "theader" (columns df) = None ->
   remove_duplicates hits w = (inl (KeyError "theader"), w)).
Proof.
  intros Hhits. unfold remove_duplicates, bind, deref, lift. rewrite Hhits.
  split; [|split].
  - intros ->. reflexivity.
  - intros Hrows Habsent. destruct (rows df) as [|[i row] its]; [contradiction|].
    cbn [remove_duplicates_loop]. now rewrite (row_getitem_absent _ _ _ Habsent).
  - intros Hrows Htseq Habsent. destruct (rows df) as [|[i row] its]; [contradiction|].
    cbn [remove_duplicates_loop]. rewrite (row_getitem_field _ _ _ Htseq). cbn [rbind].
    assert (Hnew : in_seen (field (columns df) "tseq" row) ∅ = false).
    { destruct (field (columns df) "tseq" row); cbn; [reflexivity..|].
      apply bool_decide_eq_false. set_solver. }
    rewrite Hnew. cbn [negb]. unfold hit_record.
    now rewrite (row_getitem_absent _ _ _ Habsent).
Qed.

Lemma remove_duplicates_looks_up_columns_per_row_sample :
  let E := Sample.tools in
  let df := mkDataFrame ["query"; "tseq"] (range_index [[CStr "query"; CStr "ATGC"]]) in
  let w := mkWorld ∅ [df] [] in
  (rows df = [] -> @remove_duplicates E 0 w = (inr [], w)) /\
  (rows df <> [] -> column_index "tseq" (columns df) = None ->
   @remove_duplicates E 0 w = (inl (KeyError "tseq"), w)) /\
  (rows df <> [] -> is_Some (column_index "tseq" (columns df)) ->
   column_index "theader" (columns df) = None ->
   @remove_duplicates E 0 w = (inl (KeyError "theader"), w)).
Proof.
  intros E df w.
  apply (@remove_duplicates_looks_up_columns_per_row E w 0 df). reflexivity.
Defined.

Lemma first_flags_covers keys seen k :
  k ∈ keys -> k ∈ seen \/ k ∈ select (first_flags keys seen) keys.
Proof.
  revert seen. induction keys as [|k0 keys IH]; intros seen Hk; [inversion Hk|].
  apply elem_of_cons in Hk. cbn [first_flags]. case_bool_decide as Hk0; cbn [select].
  - destruct Hk as [->|Hk]; [now left|]. now apply IH.
  - destruct Hk as [->|Hk]; [right; now left|].
    destruct (IH ({[k0]} ∪ seen) Hk) as [Hin|Hin].
    + apply elem_of_union in Hin as [Hin|Hin]; [|now left].
      apply elem_of_singleton in Hin as ->. right. now left.
    + right. now right.
Qed.

Lemma select_subset {A} (mask : list bool) (l : list A) x :
  x ∈ select mask l -> x ∈ l.
Proof.
  revert l. induction mask as [|b mask IH]; intros [|y l]; cbn [select]; intros Hx;
    try (inversion Hx; fail).
  destruct b.
  - apply elem_of_cons in Hx as [->|Hx]; [now left|]. right. now apply IH.
  - right. now apply IH.
Qed.

Lemma first_flags_all_new {A} keys seen (l : list A) :
  NoDup keys -> (forall k, k ∈ keys -> k ∉ seen) -> length l = length keys ->
  select (first_flags keys seen) l = l.
Proof.
  revert seen l. induction keys as [|k0 keys IH]; intros seen [|x l] Hnd Hnew Hlen;
    try discriminate; [reflexivity|].
  cbn [first_flags]. apply NoDup_cons in Hnd as [Hk0 Hnd].
  case_bool_decide as Hseen; [exfalso; apply (Hnew k0); [now left|exact Hseen]|].
  cbn [select]. f_equal. apply IH; [exact Hnd| |now inversion Hlen].
  intros k Hk Hin. apply elem_of_union in Hin as [Hin|Hin].
  - apply elem_of_singleton in Hin as ->. contradiction.
  - apply (Hnew k); [now right|exact Hin].
Qed.

(** X9: no sequence is lost.  On a table of structural hits the sequences of
    the records [remove_duplicates] returns are exactly the sequences of the
    rows. *)
Theorem remove_duplicates_keeps_every_sequence `{Externals} w hits df :
  heap w !! hits = Some df ->
  structural_hits df = true ->
  exists recs,
    remove_duplicates hits w = (inr recs, w) /\
    forall s, s ∈ List.map seq recs <-> s ∈ List.map (tseq_of (columns df)) (rows df).
Proof.
  intros Hhits Hwf. unfold structural_hits in Hwf. apply andb_prop in Hwf as [Hcols Hrows].
  set (cols := columns df) in *.
  eexists. split.
  - unfold remove_duplicates, bind, deref, lift. rewrite Hhits.
    now rewrite (remove_duplicates_loop_spec cols (rows df) ∅ [] Hcols Hrows).
  - intros s. cbn [app]. rewrite !List.map_map.
    change (fun x : nat * list cell => seq (record_of cols (snd x))) with (tseq_of cols).
    rewrite <- select_map. split.
    + apply select_subset.
    + intros Hs. destruct (first_flags_covers _ ∅ s Hs) as [Hin|Hin]; [set_solver|exact Hin].
Qed.

Lemma remove_duplicates_keeps_every_sequence_sample :
  let w := mkWorld Sample.files [sample_hits_table] [] in
  exists recs,
    @remove_duplicates Sample.tools 0 w = (inr recs, w) /\
    forall s, s ∈ List.map seq recs <->
              s ∈ List.map (tseq_of (columns sample_hits_table)) (rows sample_hits_table).
Proof.
  intros w.
  apply (@remove_duplicates_keeps_every_sequence Sample.tools w 0 sample_hits_table).
  - reflexivity.
  - vm_compute. reflexivity.
Defined.

(** X10: a table of structural hits whose sequences are pairwise different
    goes through unchanged: one record for every row, in the order of the
    rows. *)
Theorem remove_duplicates_without_duplicates `{Externals} w hits df :
  heap w !! hits = Some df ->
  structural_hits df = true ->
  NoDup (List.map (tseq_of (columns df)) (rows df)) ->
  remove_duplicates hits w
  = (inr (List.map (record_of (columns df)) (List.map snd (rows df))), w).
Proof.
  intros Hhits Hwf Hnd. unfold structural_hits in Hwf. apply andb_prop in Hwf as [Hcols Hrows].
  unfold remove_duplicates, bind, deref, lift. rewrite Hhits.
  rewrite (remove_duplicates_loop_spec (columns df) (rows df) ∅ [] Hcols Hrows).
  cbn [app]. rewrite first_flags_all_new; [reflexivity|exact Hnd|set_solver|].
  now rewrite length_map.
Qed.

Lemma remove_duplicates_without_duplicates_sample :
  let df := mkDataFrame m8_names
              (range_index [Sample.hit "seq1" 98.5 Sample.e20 "ATGC" 562 "Escherichia coli";
                            Sample.hit "seq3" 60 Sample.e30 "GGCC" 562 "Escherichia coli"]) in
  let w := mkWorld ∅ [df] [] in
  @remove_duplicates Sample.tools 0 w
  = (inr (List.map (@record_of Sample.tools (columns df)) (List.map snd (rows df))), w).
Proof.
  intros df w.
  apply (@remove_duplicates_without_duplicates Sample.tools w 0 df).
  - reflexivity.
  - vm_compute. reflexivity.
  - vm_compute. repeat constructor; set_solver.
Defined.

(** ** argparse and the last stage *)

(** X11: the namespace [parse_args] returns has exactly the attributes of the
    ten declared options, whatever the command line. *)
Theorem parse_args_attributes `{Externals} argv args a :
  parse_args argv = inr args ->
  (is_Some (args !! a) <-> In a (List.map dest declared_arguments)).
Proof.
  intros Hparse. rewrite declared_dests_eq. split.
  - intros Ha. destruct (List.in_dec string_dec a declared_dests) as [Hin|Hnot]; [exact Hin|].
    rewrite (parse_known_undeclared argv _ args a Hnot Hparse
               (default_namespace_undeclared a Hnot)) in Ha.
    now destruct Ha.
  - intros Hin.
    apply (parse_known_keeps argv _ args a Hparse (default_namespace_declared a Hin)).
Qed.

Lemma parse_args_attributes_sample :
  let args := match @parse_args Sample.tools [("-i", VStr "sample.pdb"); ("-j", VInt 8)] with
              | inr args => args
              | inl _ => ∅
              end in
  is_Some (args !! "jobs") <-> In "jobs" (List.map dest (@declared_arguments Sample.tools)).
Proof.
  intros args.
  apply (@parse_args_attributes Sample.tools [("-i", VStr "sample.pdb"); ("-j", VInt 8)]).
  vm_compute. reflexivity.
Defined.

Lemma never_extracts_silent {A} (m : M A) :
  (forall w, trace (snd (m w)) = trace w) -> never_extracts m.
Proof. intros Hm w. exists []. now rewrite Hm, List.app_nil_r. Qed.

Lemma never_extracts_emits {A} (m : M A) must plan :
  emits m must plan ->
  forallb (fun ev => negb (is_blastdbcmd ev)) plan = true ->
  never_extracts m.
Proof.
  intros Hm Hplan w. destruct (Hm w) as (evs & Htrace & _ & [rest ->] & _).
  exists evs. split; [exact Htrace|].
  rewrite List.forallb_app in Hplan. now apply andb_prop in Hplan as [Hevs _].
Qed.

Lemma never_extracts_bind {A B} (m : M A) (k : A -> M B) :
  never_extracts m ->
  (forall a w w', m w = (inr a, w') -> never_extracts (k a)) ->
  never_extracts (bind m k).
Proof.
  intros Hm Hk w. destruct (Hm w) as (e1 & Ht1 & Hq1).
  unfold bind. destruct (m w) as [[e|a] w1] eqn:Hmw; cbn [snd] in *.
  - now exists e1.
  - destruct (Hk a w w1 Hmw w1) as (e2 & Ht2 & Hq2).
    exists (e1 ++ e2). split; [now rewrite Ht2, Ht1, List.app_assoc|].
    rewrite List.forallb_app. now rewrite Hq1, Hq2.
Qed.

Lemma never_extracts_structural_search `{Externals} args input :
  never_extracts (structural_search args input).
Proof.
  unfold structural_search.
  destruct (String.eqb (path_suffix input) ".pdb").
  - repeat (apply never_extracts_bind;
            [now apply never_extracts_silent|intros ? _ _ _]).
    apply never_extracts_bind; [|intros; now apply never_extracts_silent].
    apply (never_extracts_emits _ _ _ (emits_invoke _)). reflexivity.
  - destruct (String.eqb (path_suffix input) ".m8"); now apply never_extracts_silent.
Qed.

Lemma never_extracts_main `{Externals} argv : never_extracts (main argv).
Proof.
  unfold main. apply never_extracts_bind.
  - unfold search_stages.
    apply never_extracts_bind; [now apply never_extracts_silent|].
    intros args w0 w1 Hargs. unfold lift in Hargs. inversion Hargs as [[Hparse Hw]].
    do 3 (apply never_extracts_bind; [now apply never_extracts_silent|intros ? _ _ _]).
    apply never_extracts_bind.
    { apply never_extracts_silent. intros w. apply f_equal.
      apply check_binaries_available_same_world. }
    intros _ _ _ _.
    do 2 (apply never_extracts_bind; [now apply never_extracts_silent|intros ? _ _ _]).
    apply never_extracts_bind; [apply never_extracts_structural_search|intros m8 _ _ _].
    apply never_extracts_bind; [|intros; now apply never_extracts_silent].
    apply (never_extracts_emits _ _ _ (emits_translated_search argv args _ m8 Hparse)).
    reflexivity.
  - intros s w0 w1 Hs. apply search_stages_args in Hs.
    apply never_extracts_silent. intros w.
    now rewrite (extract_final_records_raises argv _ _ w Hs).
Qed.

(** X12: [main] never ends normally and never calls [run_blastdbcmd]: on
    every command line and in every world it ends with an exception, and no
    event it adds to the trace is a call of the extraction. *)
Theorem main_never_completes `{Externals} argv w :
  (exists e, fst (main argv w) = inl e) /\
  exists evs,
    trace (snd (main argv w)) = trace w ++ evs /\
    forallb (fun ev => negb (is_blastdbcmd ev)) evs = true.
Proof.
  split; [|apply never_extracts_main].
  unfold main, bind. destruct (search_stages argv w) as [[e|s] w1] eqn:Hrun; [now exists e|].
  apply search_stages_args in Hrun.
  rewrite (extract_final_records_raises argv _ _ w1 Hrun). eauto.
Qed.

(** ** The FASTA file between the stages *)

Lemma remove_duplicates_reads_heap `{Externals} hits w w' :
  heap w = heap w' -> fst (remove_duplicates hits w) = fst (remove_duplicates hits w').
Proof.
  intros Hheap. unfold remove_duplicates, bind, deref, lift. rewrite Hheap.
  now destruct (heap w' !! hits).
Qed.

Lemma remove_duplicates_result `{Externals} hits w r :
  fst (remove_duplicates hits w) = r -> remove_duplicates hits w = (r, w).
Proof.
  intros <-. rewrite <- (remove_duplicates_same_world hits w) at 3.
  now destruct (remove_duplicates hits w).
Qed.

(** X13: the FASTA file is opened before the duplicates are removed.  When
    the structural hits have been filtered and [remove_duplicates] raises,
    the run ends with that exception and leaves [<stem>_nodup.fasta] behind,
    empty; the translated search is not called. *)
Theorem translated_search_leaves_empty_fasta `{Externals} args input m8file w hits w1 e :
  filtering_m8file m8file default_eval_threshold w = (inr hits, w1) ->
  fst (remove_duplicates hits w1) = inl e ->
  translated_search args input m8file w
  = (inl e,
     mkWorld (<[path_stem input +:+ "_nodup.fasta" := ""]> (fs w1)) (heap w1)
       (trace w1 ++ [EvWrite (path_stem input +:+ "_nodup.fasta")])).
Proof.
  intros Hfilter Hdedup. unfold translated_search. cbv zeta.
  rewrite (bind_inr _ _ _ _ _ Hfilter).
  unfold bind at 1. unfold open_w, bind at 1, log, write_file. cbn [fst snd fs heap trace].
  set (w2 := mkWorld _ _ _).
  assert (Hrun : remove_duplicates hits w2 = (inl e, w2)).
  { apply remove_duplicates_result.
    now rewrite (remove_duplicates_reads_heap hits w2 w1 eq_refl). }
  now rewrite (bind_inl _ _ _ _ _ Hrun).
Qed.

Lemma translated_search_leaves_empty_fasta_sample :
  let E := tools_reading m8_names [hit_with_numeric_header] in
  let run := @filtering_m8file E "sample.m8" default_eval_threshold Sample.world in
  @translated_search E ∅ "data/sample.m8" "sample.m8" Sample.world
  = (inl (TypeError "id argument should be a string"),
     mkWorld (<[path_stem "data/sample.m8" +:+ "_nodup.fasta" := ""]> (fs (snd run)))
       (heap (snd run))
       (trace (snd run) ++ [EvWrite (path_stem "data/sample.m8" +:+ "_nodup.fasta")])).
Proof.
  intros E run.
  apply (@translated_search_leaves_empty_fasta E ∅ "data/sample.m8" "sample.m8"
           Sample.world 1 (snd run)).
  - vm_compute. reflexivity.
  - vm_compute. reflexivity.
Defined.

(** The run up to the call of the translated search. *)
Lemma translated_search_until_tblastn `{Externals} argv args input m8file w hits w1 recs :
  parse_args argv = inr args ->
  filtering_m8file m8file default_eval_threshold w = (inr hits, w1) ->
  fst (remove_duplicates hits w1) = inr recs ->
  translated_search args input m8file w
  = bind (invoke (tblastn_call args input))
      (fun _ => filtering_by_pident (path_stem input +:+ "_tblastn.tsv")
                  default_pident_threshold "saccver")
      (mkWorld (<[path_stem input +:+ "_nodup.fasta" := fasta_format recs]> (fs w1))
         (heap w1) (trace w1 ++ [EvWrite (path_stem input +:+ "_nodup.fasta")])).
Proof.
  intros Hparse Hfilter Hdedup. unfold translated_search. cbv zeta.
  rewrite_declared argv args Hparse.
  rewrite (bind_inr _ _ _ _ _ Hfilter).
  unfold bind at 1. unfold open_w, bind at 1, log, write_file. cbn [fst snd fs heap trace].
  set (w2 := mkWorld _ _ _).
  assert (Hrun : remove_duplicates hits w2 = (inr recs, w2)).
  { apply remove_duplicates_result.
    now rewrite (remove_duplicates_reads_heap hits w2 w1 eq_refl). }
  rewrite (bind_inr _ _ _ _ _ Hrun).
  unfold bind at 1. cbn [fst snd fs heap trace]. unfold w2. cbn [fs heap trace].
  rewrite insert_insert_eq.
  reflexivity.
Qed.

(** X14: when the structural hits have been filtered and their duplicates
    removed, the translated search is called in a world where
    [<stem>_nodup.fasta] holds the FASTA text of exactly those records; the
    run goes on from there with the call and the filter of its result. *)
Theorem translated_search_writes_records `{Externals} argv args input m8file w hits w1 recs :
  parse_args argv = inr args ->
  filtering_m8file m8file default_eval_threshold w = (inr hits, w1) ->
  fst (remove_duplicates hits w1) = inr recs ->
  translated_search args input m8file w
  = bind (invoke (tblastn_call args input))
      (fun _ => filtering_by_pident (path_stem input +:+ "_tblastn.tsv")
                  default_pident_threshold "saccver")
      (mkWorld (<[path_stem input +:+ "_nodup.fasta" := fasta_format recs]> (fs w1))
         (heap w1) (trace w1 ++ [EvWrite (path_stem input +:+ "_nodup.fasta")])).
Proof. apply translated_search_until_tblastn. Qed.

Lemma translated_search_writes_records_sample :
  let E := Sample.tools in
  let argv := [("-i", VStr "sample.m8")] in
  let args := match @parse_args E argv with inr args => args | inl _ => ∅ end in
  let run := @filtering_m8file E "sample.m8" default_eval_threshold Sample.world in
  let recs := match fst (@remove_duplicates E 1 (snd run)) with
              | inr recs => recs
              | inl _ => []
              end in
  @translated_search E args "sample.m8" "sample.m8" Sample.world
  = bind (@invoke E (tblastn_call args "sample.m8"))
      (fun _ => @filtering_by_pident E (path_stem "sample.m8" +:+ "_tblastn.tsv")
                  default_pident_threshold "saccver")
      (mkWorld (<[path_stem "sample.m8" +:+ "_nodup.fasta" := @fasta_format E recs]>
                  (fs (snd run)))
         (heap (snd run))
         (trace (snd run) ++ [EvWrite (path_stem "sample.m8" +:+ "_nodup.fasta")])).
Proof.
  intros E argv args run recs.
  apply (@translated_search_writes_records E argv args "sample.m8" "sample.m8"
           Sample.world 1 (snd run) recs).
  - vm_compute. reflexivity.
  - vm_compute. reflexivity.
  - vm_compute. reflexivity.
Defined.

(** ** The names of the files *)

Lemma append_cons c (a b : string) : String c a +:+ b = String c (a +:+ b).
Proof. reflexivity. Qed.

Lemma append_empty_r (s : string) : s +:+ "" = s.
Proof. induction s as [|c s IH]; [reflexivity|]. now rewrite append_cons, IH. Qed.

Lemma substring_whole (s : string) : substring 0 (String.length s) s = s.
Proof. induction s as [|c s IH]; [reflexivity|]. simpl. f_equal. exact IH. Qed.

Lemma substring_split (s : string) i :
  i <= String.length s ->
  substring 0 i s +:+ substring i (String.length s - i) s = s.
Proof.
  revert i. induction s as [|c s IH]; intros i Hi.
  - cbn in Hi. assert (i = 0) as -> by lia. reflexivity.
  - destruct i as [|i].
    + rewrite Nat.sub_0_r, substring_whole. reflexivity.
    + cbn [String.length] in *. cbn [substring Nat.sub]. rewrite append_cons.
      f_equal. apply IH. lia.
Qed.

Lemma no_separator_append (a b : string) :
  no_separator (a +:+ b) = no_separator a && no_separator b.
Proof.
  unfold no_separator. induction a as [|c a IH]; [reflexivity|].
  rewrite append_cons. cbn [list_ascii_of_string forallb]. now rewrite IH, andb_assoc.
Qed.

Lemma no_separator_substring (s : string) n m :
  no_separator s = true -> no_separator (substring n m s) = true.
Proof.
  unfold no_separator. revert n m.
  induction s as [|c s IH]; intros n m Hs.
  - destruct n, m; reflexivity.
  - cbn in Hs. apply andb_prop in Hs as [Hc Hs].
    destruct n as [|n]; [destruct m as [|m]|]; cbn; [reflexivity| |now apply IH].
    rewrite Hc. now apply IH.
Qed.

Lemma split_no_separator (s x : string) :
  In x (split "/" s) -> no_separator x = true.
Proof.
  revert x. induction s as [|c s IH]; intros x Hx; cbn [split] in Hx.
  - destruct Hx as [<-|[]]. reflexivity.
  - destruct (Ascii.eqb c "/") eqn:Hc.
    + destruct Hx as [<-|Hx]; [reflexivity|now apply IH].
    + destruct (split "/" s) as [|h t].
      * destruct Hx as [<-|[]]. unfold no_separator. cbn. now rewrite Hc.
      * destruct Hx as [<-|Hx].
        -- unfold no_separator. cbn. rewrite Hc. apply (IH h). now left.
        -- apply IH. now right.
Qed.

Lemma path_name_no_separator (p : string) : no_separator (path_name p) = true.
Proof.
  unfold path_name, path_parts.
  set (parts := List.filter _ _).
  assert (Hparts : forall x, In x parts -> no_separator x = true).
  { intros x Hx. apply List.filter_In in Hx as [Hx _]. now apply (split_no_separator p). }
  clearbody parts. induction parts as [|x [|y parts] IH]; [reflexivity| |].
  - apply Hparts. now left.
  - apply IH. intros z Hz. apply Hparts. now right.
Qed.

Lemma path_stem_no_separator (p : string) : no_separator (path_stem p) = true.
Proof.
  unfold path_stem. pose proof (path_name_no_separator p) as Hname.
  destruct (rfind "." (path_name p)) as [i|]; [|exact Hname].
  destruct (_ && _); [now apply no_separator_substring|exact Hname].
Qed.

(** X15: the stem and the suffix of a path make up its last component, and
    the three files the driver names after the stem have no directory part:
    they are made in the working directory, wherever the input is. *)
Theorem derived_files_are_in_working_directory (input : string) :
  path_stem input +:+ path_suffix input = path_name input /\
  no_separator (path_stem input +:+ ".m8") = true /\
  no_separator (path_stem input +:+ "_nodup.fasta") = true /\
  no_separator (path_stem input +:+ "_tblastn.tsv") = true.
Proof.
  split.
  - unfold path_stem, path_suffix.
    destruct (rfind "." (path_name input)) as [i|]; [|apply append_empty_r].
    destruct ((0 <? i)%nat && (i <? String.length (path_name input) - 1)%nat) eqn:Hi;
      [|apply append_empty_r].
    apply andb_prop in Hi as [_ Hi]. apply Nat.ltb_lt in Hi.
    apply substring_split. lia.
  - rewrite !no_separator_append, path_stem_no_separator. repeat split; reflexivity.
Qed.

(** ** Missing values and the thresholds *)

Lemma SFcompare_refl s : s <> S754_nan -> SFcompare s s = Some Eq.
Proof.
  destruct s as [b|b| |b m e]; intros Hs; try reflexivity.
  - now destruct b.
  - contradiction.
  - cbn. now destruct b; rewrite Z.compare_refl, Pos.compare_cont_refl.
Qed.

Lemma SFcompare_antisym a b :
  SFcompare b a = option_map CompOpp (SFcompare a b).
Proof.
  destruct a as [sa|sa| |sa ma ea], b as [sb|sb| |sb mb eb]; try reflexivity;
    try (now destruct sa); try (now destruct sb); try (now destruct sa, sb).
  cbn. f_equal. rewrite (Z.compare_antisym ea eb).
  destruct sa, sb; try reflexivity;
    destruct (ea ?= eb)%Z; cbn; try reflexivity;
    rewrite (Pos.compare_cont_antisym ma mb Eq); cbn;
    now destruct (Pos.compare_cont Eq ma mb).
Qed.

Lemma is_nan_spec f : PrimFloat.is_nan f = true -> Prim2SF f = S754_nan.
Proof.
  unfold PrimFloat.is_nan. rewrite FloatAxioms.eqb_spec. unfold SFeqb. intros Hf.
  destruct (Prim2SF f) eqn:Hs; try reflexivity;
    rewrite SFcompare_refl in Hf by discriminate; discriminate.
Qed.

Lemma not_nan_spec f : PrimFloat.is_nan f = false -> Prim2SF f <> S754_nan.
Proof.
  unfold PrimFloat.is_nan. rewrite FloatAxioms.eqb_spec. unfold SFeqb. intros Hf Hs.
  rewrite Hs in Hf. discriminate.
Qed.

(** A missing value is neither below nor at least anything. *)
Lemma ltb_nan f t :
  PrimFloat.is_nan f = true \/ PrimFloat.is_nan t = true -> PrimFloat.ltb f t = false.
Proof.
  rewrite FloatAxioms.ltb_spec. unfold SFltb.
  intros [Hf%is_nan_spec|Ht%is_nan_spec].
  - now rewrite Hf.
  - rewrite Ht. now destruct (Prim2SF f).
Qed.

Lemma leb_nan f t :
  PrimFloat.is_nan f = true \/ PrimFloat.is_nan t = true -> PrimFloat.leb f t = false.
Proof.
  rewrite FloatAxioms.leb_spec. unfold SFleb.
  intros [Hf%is_nan_spec|Ht%is_nan_spec].
  - now rewrite Hf.
  - rewrite Ht. now destruct (Prim2SF f).
Qed.

(** Of two values that are present, one is below the other exactly when the
    other is not at most it. *)
Lemma ltb_negb_leb f t :
  PrimFloat.is_nan f = false -> PrimFloat.is_nan t = false ->
  PrimFloat.ltb f t = negb (PrimFloat.leb t f).
Proof.
  intros Hf%not_nan_spec Ht%not_nan_spec.
  rewrite FloatAxioms.ltb_spec, FloatAxioms.leb_spec. unfold SFltb, SFleb.
  rewrite (SFcompare_antisym (Prim2SF f) (Prim2SF t)).
  destruct (SFcompare (Prim2SF f) (Prim2SF t)) as [[]|] eqn:Hc; try reflexivity.
  exfalso. destruct (Prim2SF f), (Prim2SF t); try discriminate; contradiction.
Qed.

(** X16: rows whose e-value is missing never pass the filter, whatever the
    threshold, and when the threshold itself is not a number no row
    passes. *)
Theorem filtering_m8file_drops_missing_evalues `{Externals} w file t l w' out :
  filtering_m8file file t w = (inr l, w') ->
  heap w' !! l = Some out ->
  (forall r, In r (rows out) -> isna (field m8_names "evalue" (snd r)) = false) /\
  (PrimFloat.is_nan t = true -> rows out = []).
Proof.
  intros Hrun Hout.
  destruct (filtering_m8file_inv _ _ _ _ _ Hrun) as (text & body & Hfile & Hparse & Hnum).
  rewrite (filtering_m8file_run w file t text body Hfile Hparse Hnum) in Hrun.
  inversion Hrun; subst l w'; clear Hrun.
  cbn [heap] in Hout. rewrite lookup_second_new in Hout.
  inversion Hout; subst out; clear Hout. cbn [rows]. split.
  - intros r Hr. apply List.filter_In in Hr as [_ Hr].
    unfold evalue_below, cmp_holds in Hr.
    destruct (field m8_names "evalue" (snd r)) as [z|f|s]; cbn in *; try reflexivity.
    destruct (PrimFloat.is_nan f) eqn:Hf; [|reflexivity].
    rewrite ltb_nan in Hr by now left. discriminate.
  - intros Ht. induction (range_index body) as [|r rs IH]; [reflexivity|].
    cbn [List.filter]. replace (evalue_below t r) with false; [exact IH|].
    unfold evalue_below, cmp_holds.
    destruct (cell_float _) as [f|]; [|reflexivity].
    symmetry. apply ltb_nan. now right.
Qed.

Lemma filtering_m8file_drops_missing_evalues_sample :
  let E := tools_reading m8_names
             [Sample.hit "seq1" 98.5 Sample.e20 "ATGC" 562 "Escherichia coli";
              Sample.hit "seq2" 75 nan "GGCC" 9606 "Homo sapiens"] in
  let run := @filtering_m8file E "sample.m8" default_eval_threshold Sample.world in
  let out := mkDataFrame m8_names
               (range_index [Sample.hit "seq1" 98.5 Sample.e20 "ATGC" 562 "Escherichia coli"]) in
  (forall r, In r (rows out) -> isna (field m8_names "evalue" (snd r)) = false) /\
  (PrimFloat.is_nan default_eval_threshold = true -> rows out = []).
Proof.
  intros E run out.
  apply (@filtering_m8file_drops_missing_evalues E Sample.world "sample.m8"
           default_eval_threshold 1 (snd run) out).
  - vm_compute. reflexivity.
  - vm_compute. reflexivity.
Defined.

(** X17: with a threshold that is a number, a row whose e-value is present
    is dropped exactly when its e-value is at least the threshold. *)
Theorem filtering_m8file_drops_at_or_above_threshold `{Externals} w file t text body :
  fs w !! file = Some text ->
  parse_names m8_names text = inr body ->
  numeric (List.map (field m8_names "evalue") body) = true ->
  PrimFloat.is_nan t = false ->
  exists l w' out,
    filtering_m8file file t w = (inr l, w') /\
    heap w' !! l = Some out /\
    forall r f,
      In r (range_index body) ->
      cell_float (field m8_names "evalue" (snd r)) = Some f ->
      PrimFloat.is_nan f = false ->
      (In r (rows out) <-> PrimFloat.leb t f = false).
Proof.
  intros Hfile Hparse Hnum Ht.
  eexists _, _, _.
  split; [apply (filtering_m8file_run w file t text body Hfile Hparse Hnum)|].
  cbn [heap]. split; [apply lookup_second_new|]. cbn [rows].
  intros r f Hr Hcell Hf. rewrite List.filter_In.
  unfold evalue_below, cmp_holds. rewrite Hcell, (ltb_negb_leb f t Hf Ht).
  rewrite negb_true_iff. tauto.
Qed.

Lemma filtering_m8file_drops_at_or_above_threshold_sample :
  exists l w' out,
    @filtering_m8file Sample.tools "sample.m8" default_eval_threshold Sample.world
      = (inr l, w') /\
    heap w' !! l = Some out /\
    forall r f,
      In r (range_index Sample.hits) ->
      cell_float (field m8_names "evalue" (snd r)) = Some f ->
      PrimFloat.is_nan f = false ->
      (In r (rows out) <-> PrimFloat.leb default_eval_threshold f = false).
Proof.
  apply (@filtering_m8file_drops_at_or_above_threshold Sample.tools Sample.world "sample.m8"
           default_eval_threshold "hits" Sample.hits).
  - vm_compute. reflexivity.
  - reflexivity.
  - vm_compute. reflexivity.
  - reflexivity.
Defined.

(** ** The order of the sorted table when no keys are tied *)

(** An ascending arrangement of labelled rows without tied keys is the only
    one. *)
Lemma ascending_unique {A} (key : A -> cell) (lab : A -> nat) (l1 l2 : list A) :
  l1 ≡ₚ l2 ->
  (forall x y, In x l1 -> In y l1 -> lab x = lab y -> x = y) ->
  (forall x y, In x l1 -> In y l1 -> lab x <> lab y -> tied (key x) (key y) = false) ->
  ascending na_last_le (List.map key l1) = true ->
  ascending na_last_le (List.map key l2) = true ->
  l1 = l2.
Proof.
  revert l2. induction l1 as [|a l1 IH]; intros l2 Hperm Hinj Hties H1 H2.
  - now apply Permutation_nil_l in Hperm.
  - destruct l2 as [|b l2]; [now apply Permutation_nil_r in Hperm|].
    assert (Hb0 : In b (a :: l1))
      by (apply (Permutation_in (l := b :: l2)); [now symmetry|now left]).
    assert (Hab : a = b).
    { destruct (Nat.eq_dec (lab a) (lab b)) as [Heq|Hne];
        [apply Hinj; [now left|exact Hb0|exact Heq]|exfalso].
      assert (Hb : In b l1).
      { destruct Hb0 as [Heq|Hin]; [now subst|exact Hin]. }
      assert (Ha : In a l2).
      { assert (Hin : In a (b :: l2))
          by (apply (Permutation_in (l := a :: l1)); [exact Hperm|now left]).
        destruct Hin as [Heq|Hin]; [now subst|exact Hin]. }
      cbn [List.map ascending] in H1, H2.
      apply andb_prop in H1 as [H1 _]. apply andb_prop in H2 as [H2 _].
      rewrite List.forallb_forall in H1, H2.
      specialize (H1 (key b) (List.in_map key _ _ Hb)).
      specialize (H2 (key a) (List.in_map key _ _ Ha)).
      assert (Htie : tied (key a) (key b) = false)
        by (apply Hties; [now left|now right|exact Hne]).
      unfold tied in Htie. rewrite H1, H2 in Htie. discriminate. }
    subst b. f_equal. apply IH.
    + now apply Permutation_cons_inv in Hperm.
    + intros x y Hx Hy. apply Hinj; now right.
    + intros x y Hx Hy. apply Hties; now right.
    + cbn [List.map ascending] in H1. now apply andb_prop in H1 as [_ H1].
    + cbn [List.map ascending] in H2. now apply andb_prop in H2 as [_ H2].
Qed.

Lemma range_index_labels (body : list (list cell)) x y :
  In x (range_index body) -> In y (range_index body) -> fst x = fst y -> x = y.
Proof.
  unfold range_index. rewrite <- !list_elem_of_In.
  intros (i & r & -> & Hi)%elem_of_lookup_imap_1 (j & r' & -> & Hj)%elem_of_lookup_imap_1.
  cbn [fst]. intros ->. congruence.
Qed.

(** X18: when no two of the kept rows have tied keys, the table
    [filtering_by_pident] returns does not depend on the sorting routine: its
    rows are the only ascending arrangement of the kept rows. *)
Theorem filtering_by_pident_unique_without_ties `{Externals} w infile p label text cols body :
  fs w !! infile = Some text ->
  parse_header text = inr (cols, body) ->
  is_Some (column_index "pident" cols) ->
  numeric (List.map (field cols "pident") body) = true ->
  is_Some (column_index label cols) ->
  sortable (dropna (keys_of cols label
                      (List.filter (pident_at_least cols p) (range_index body)))) = true ->
  sorts (dropna (keys_of cols label
                   (List.filter (pident_at_least cols p) (range_index body))))
    (argsort (dropna (keys_of cols label
                        (List.filter (pident_at_least cols p) (range_index body))))) = true ->
  (forall x y,
     In x (List.filter (pident_at_least cols p) (range_index body)) ->
     In y (List.filter (pident_at_least cols p) (range_index body)) ->
     fst x <> fst y ->
     tied (field cols label (snd x)) (field cols label (snd y)) = false) ->
  exists l w' out,
    filtering_by_pident infile p label w = (inr l, w') /\
    heap w' !! l = Some out /\
    forall rs,
      rs ≡ₚ List.filter (pident_at_least cols p) (range_index body) ->
      ascending na_last_le (keys_of cols label rs) = true ->
      rs = rows out.
Proof.
  intros Hfile Hparse Hpident Hnum Hlabel Hsortable Hsorts Hties.
  set (kept := List.filter (pident_at_least cols p) (range_index body)) in *.
  destruct (nargsort_spec (keys_of cols label kept) Hsortable Hsorts)
    as (indexer & Hidx & Hperm & Hasc).
  unfold keys_of in Hperm at 1. rewrite length_map in Hperm.
  eexists _, _, (take (mkDataFrame cols kept) indexer).
  split; [apply (filtering_by_pident_run w infile p label text cols body indexer); assumption|].
  cbn [heap]. split; [apply lookup_third_new|].
  intros rs Hrs Hrs_asc. symmetry.
  assert (Hout : rows (take (mkDataFrame cols kept) indexer) ≡ₚ kept)
    by now apply (take_rows_permutation (mkDataFrame cols kept)).
  assert (Hkept : forall x, In x (rows (take (mkDataFrame cols kept) indexer)) -> In x kept)
    by (intros x; apply Permutation_in; exact Hout).
  apply (ascending_unique (fun r => field cols label (snd r)) fst).
  - now rewrite Hout, Hrs.
  - intros x y Hx%Hkept Hy%Hkept. unfold kept in Hx, Hy.
    apply List.filter_In in Hx as [Hx _]. apply List.filter_In in Hy as [Hy _].
    now apply (range_index_labels body).
  - intros x y Hx%Hkept Hy%Hkept. now apply Hties.
  - unfold take. cbn [rows].
    rewrite (take_rows_keys (fun r => field cols label (snd r)) kept indexer); [exact Hasc|].
    intros i Hi. apply (Permutation_in _ Hperm) in Hi. apply List.in_seq in Hi. lia.
  - exact Hrs_asc.
Qed.

Lemma filtering_by_pident_unique_without_ties_sample :
  let E := tools_reading Sample.tblastn_columns
             [[CStr "seq1"; CStr "NZ_B"; CFloat 99.5; CFloat Sample.e30];
              [CStr "seq3"; CStr "NZ_C"; CFloat 97; CFloat Sample.e30];
              [CStr "seq3"; CStr "NZ_A"; CFloat 98; CFloat Sample.e30]] in
  let kept := List.filter (pident_at_least Sample.tblastn_columns default_pident_threshold)
                (range_index
                   [[CStr "seq1"; CStr "NZ_B"; CFloat 99.5; CFloat Sample.e30];
                    [CStr "seq3"; CStr "NZ_C"; CFloat 97; CFloat Sample.e30];
                    [CStr "seq3"; CStr "NZ_A"; CFloat 98; CFloat Sample.e30]]) in
  exists l w' out,
    @filtering_by_pident E "sample_tblastn.tsv" default_pident_threshold "saccver" Sample.world
      = (inr l, w') /\
    heap w' !! l = Some out /\
    forall rs,
      rs ≡ₚ kept ->
      ascending na_last_le (keys_of Sample.tblastn_columns "saccver" rs) = true ->
      rs = rows out.
Proof.
  intros E kept.
  apply (@filtering_by_pident_unique_without_ties E Sample.world "sample_tblastn.tsv"
           default_pident_threshold "saccver" "tblastn").
  - vm_compute. reflexivity.
  - reflexivity.
  - vm_compute. eauto.
  - vm_compute. reflexivity.
  - vm_compute. eauto.
  - vm_compute. reflexivity.
  - vm_compute. reflexivity.
  - intros x y Hx Hy Hxy. vm_compute in Hx, Hy.
    destruct Hx as [<-|[<-|[]]], Hy as [<-|[<-|[]]];
      try (exfalso; apply Hxy; reflexivity); vm_compute; reflexivity.
Defined.

(** ** Failures of the external programs *)

(** X19: a failure of the structural search ends the run.  With an input of
    suffix [.pdb], when the call of the structural search raises, [main] ends
    with that exception; the call is the only event, and the files are as the
    program left them. *)
Theorem main_stops_when_foldseek_fails `{Externals} argv w args input e files :
  parse_args argv = inr args ->
  attr args "input" = VStr input ->
  check_binaries_available (attr args "parallel_binary_path")
    (attr args "tblastn_binary_path") (attr args "foldseek_binary_path") w = (inr tt, w) ->
  String.eqb (path_suffix input) ".pdb" = true ->
  external (foldseek_call args input) (fs w) = (Some e, files) ->
  main argv w = (inl e, mkWorld files (heap w) (trace w ++ [foldseek_call args input])).
Proof.
  intros Hparse Hinput Hcheck Hpdb Hext.
  rewrite (main_at_entry argv w args input Hparse Hinput Hcheck).
  unfold bind at 1. unfold bind at 1. unfold structural_search. rewrite Hpdb.
  rewrite_declared argv args Hparse.
  do 3 (change (bind (lift (inr ?v)) ?k w) with (k v w); cbv beta).
  unfold bind at 1. unfold invoke. fold (foldseek_call args input). now rewrite Hext.
Qed.

Lemma main_stops_when_foldseek_fails_sample :
  let argv := [("-i", VStr "sample.pdb")] in
  let args := match @parse_args tools_failing argv with inr args => args | inl _ => ∅ end in
  @main tools_failing argv Sample.world
  = (inl (ExternalError "non-zero exit status"),
     mkWorld Sample.files (heap Sample.world)
       (trace Sample.world ++ [foldseek_call args "sample.pdb"])).
Proof.
  intros argv args.
  apply (@main_stops_when_foldseek_fails tools_failing argv Sample.world args "sample.pdb").
  - vm_compute. reflexivity.
  - vm_compute. reflexivity.
  - vm_compute. reflexivity.
  - reflexivity.
  - reflexivity.
Defined.

(** X20: a failure of the translated search ends the run after the FASTA file
    has been written.  When the structural hits have been filtered and their
    duplicates removed and the call of the translated search raises, the run
    ends with that exception; its result is not read. *)
Theorem translated_search_stops_when_tblastn_fails `{Externals}
    argv args input m8file w hits w1 recs e files :
  parse_args argv = inr args ->
  filtering_m8file m8file default_eval_threshold w = (inr hits, w1) ->
  fst (remove_duplicates hits w1) = inr recs ->
  external (tblastn_call args input)
    (<[path_stem input +:+ "_nodup.fasta" := fasta_format recs]> (fs w1)) = (Some e, files) ->
  translated_search args input m8file w
  = (inl e,
     mkWorld files (heap w1)
       ((trace w1 ++ [EvWrite (path_stem input +:+ "_nodup.fasta")])
        ++ [tblastn_call args input])).
Proof.
  intros Hparse Hfilter Hdedup Hext.
  rewrite (translated_search_until_tblastn argv args input m8file w hits w1 recs
             Hparse Hfilter Hdedup).
  unfold bind, invoke. cbn [fs heap trace]. now rewrite Hext.
Qed.

Lemma translated_search_stops_when_tblastn_fails_sample :
  let E := tools_failing in
  let argv := [("-i", VStr "sample.m8")] in
  let args := match @parse_args E argv with inr args => args | inl _ => ∅ end in
  let run := @filtering_m8file E "sample.m8" default_eval_threshold Sample.world in
  let recs := match fst (@remove_duplicates E 1 (snd run)) with
              | inr recs => recs
              | inl _ => []
              end in
  let files := <[path_stem "sample.m8" +:+ "_nodup.fasta" := @fasta_format E recs]>
                 (fs (snd run)) in
  @translated_search E args "sample.m8" "sample.m8" Sample.world
  = (inl (ExternalError "non-zero exit status"),
     mkWorld files (heap (snd run))
       ((trace (snd run) ++ [EvWrite (path_stem "sample.m8" +:+ "_nodup.fasta")])
        ++ [tblastn_call args "sample.m8"])).
Proof.
  intros E argv args run recs files.
  apply (@translated_search_stops_when_tblastn_fails E argv args "sample.m8" "sample.m8"
           Sample.world 1 (snd run) recs).
  - vm_compute. reflexivity.
  - vm_compute. reflexivity.
  - vm_compute. reflexivity.
  - reflexivity.
Defined.
